(** * ecco: symbol tables, scanner and statement driver

    A shallow embedding of [ecco/generation/symboltable.py],
    [ecco/scanning/ecco_scanner.py] and [ecco/parsing/statement.py],
    with the properties the specification states about them.

    Python values are modelled as follows.
    - [int] is [Z] (unbounded, as in Python).
    - [str] is the list of its Unicode code points, so that [ord] is the
      identity on a character and the empty string is [[]].
    - [Optional[T]] is [option T]; [x is None] is a match on the option.
    - A raised exception is a [Raise] result carrying the exception.
    - Objects mutated in place ([self.data], [self._length], the scanner)
      are records threaded through the calls. *)

From Stdlib Require Import ZArith NArith List Lia String Ascii.
From stdpp Require Import base tactics option list.
Import ListNotations.

Local Open Scope Z_scope.

(** ** Python strings *)

(** A character is a Unicode code point, what [ord] returns. *)
Abbreviation char := N (only parsing).
Abbreviation str := (list N) (only parsing).

Definition ord (c : char) : Z := Z.of_N c.

(** Reading of a Rocq string literal as a Python [str]. *)
Fixpoint of_string (s : string) : str :=
  match s with
  | EmptyString => []
  | String a s' => N_of_ascii a :: of_string s'
  end.

(** [len(s)] *)
Definition len {A} (l : list A) : Z := Z.of_nat (List.length l).

(** ** Exceptions and results *)

Inductive exn : Type :=
| ZeroDivisionError
| IndexError
| ValueError
| AttributeError
| RecursionError
| TypeError_put_back (length_found : Z)
    (* "put_back() expected a character, but string of length {n} found" *)
| EccoIdentifierError
    (* "Identifier is too long!" *)
| EccoSyntaxError_expected (expected actual : str)
    (* 'Expected "{expected}" but got "{actual}"' *)
| EccoSyntaxError_identifier (scanned_identifier : str)
    (* 'Unrecognized identifier "{scanned_identifier}"' *)
| EccoSyntaxError_token (c : str)
    (* 'Uncrecognized token "{c}"' *)
| ExternalError (payload : Z).
    (* whatever a collaborator outside these three files raises *)

Inductive result (A : Type) : Type :=
| Ok (a : A)
| Raise (e : exn).
Arguments Ok {A} a.
Arguments Raise {A} e.

#[export] Instance result_ret : MRet result := @Ok.
#[export] Instance result_bind : MBind result := fun A B f m =>
  match m with
  | Ok a => f a
  | Raise e => Raise e
  end.

(** ** Python list indexing *)

(** [l[i]]: negative indices count from the end, anything out of range
    raises [IndexError]. *)
Definition getitem {A} (l : list A) (i : Z) : result A :=
  let j := if i <? 0 then len l + i else i in
  if (j <? 0) || (len l <=? j) then Raise IndexError
  else match l !! Z.to_nat j with
       | Some x => Ok x
       | None => Raise IndexError
       end.

(** [l[i] = x] *)
Definition setitem {A} (l : list A) (i : Z) (x : A) : result (list A) :=
  let j := if i <? 0 then len l + i else i in
  if (j <? 0) || (len l <=? j) then Raise IndexError
  else Ok (<[Z.to_nat j := x]> l).

(** [a % b] on integers: floor modulo, [ZeroDivisionError] when [b = 0]. *)
Definition py_mod (a b : Z) : result Z :=
  if b =? 0 then Raise ZeroDivisionError else Ok (a mod b).

(** ** symboltable.py *)

#[local] Set Warnings "-register-all".

Definition FNV_OFFSET_BASIS : Z := 0xCBF29CE484222325.
Definition FNV_PRIME : Z := 0x100000001B3.

Module SymbolTableEntry.

Inductive t : Type :=
  mk {
    identifier_name : str;
    value : Z;
    next : option t
  }.

(** [SymbolTableEntry(_identifier_name, _value)] *)
Definition init (_identifier_name : str) (_value : Z) : t :=
  {| identifier_name := _identifier_name; value := _value; next := None |}.

End SymbolTableEntry.

Abbreviation SymbolTableEntry := SymbolTableEntry.t.

Module HashTableSymbolTable.

Record t : Type := mk { data : list (option SymbolTableEntry) }.

(** [HashTableSymbolTable(length)]: [[None] * length]. *)
Definition init (length : Z) : t :=
  {| data := replicate (Z.to_nat length) None |}.

Definition length (self : t) : Z := len (data self).

(** [self.data += [None] * factor] *)
Definition resize (factor : Z) (self : t) : t :=
  {| data := data self ++ replicate (Z.to_nat factor) None |}.

(** One turn of the loop of [hash]: [hash ^= ord(c); hash *= FNV_PRIME]. *)
Definition hash_step (hash : Z) (c : char) : Z :=
  Z.lxor hash (ord c) * FNV_PRIME.

Definition hash (self : t) (s : str) : result Z :=
  let hash := fold_left hash_step s FNV_OFFSET_BASIS in
  py_mod hash (length self).

Definition update (identifier : str) (entry : option SymbolTableEntry)
    (self : t) : result (bool * t) :=
  id_index ← hash self identifier;
  let symbol_already_exists := false in
  slot ← getitem (data self) id_index;
  let symbol_already_exists :=
    match slot with
    | None => true
    | Some _ => symbol_already_exists
    end in
  data' ← setitem (data self) id_index entry;
  mret (symbol_already_exists, {| data := data' |}).

Definition get (identifier : str) (self : t)
  : result (option SymbolTableEntry) :=
  id_index ← hash self identifier;
  getitem (data self) id_index.

(** The FNV-1a hash as the specification words it: every step reduced
    modulo [2^64]. *)
Definition fnv1a_64_step (hash : Z) (code_point : char) : Z :=
  (Z.lxor hash (ord code_point) * 0x100000001B3) mod 2 ^ 64.

Definition fnv1a_64 (s : str) : Z :=
  fold_left fnv1a_64_step s 0xCBF29CE484222325.

End HashTableSymbolTable.


Module FPSymbolTable.

(** The functions [self.data] can hold. [new_symbol_table] is the
    closure built by [update]: its free variables are [identifier],
    [entry] and [self]. [self] is the one table object, shared by every
    closure, so a closure value records [identifier] and [entry] only
    and is run against the table as it is at the time of the call. *)
Inductive table_fn : Type :=
| identity_table
| new_symbol_table (identifier : str) (entry : option SymbolTableEntry).

Record t : Type := mk { data : table_fn; _length : Z }.

Definition init : t := {| data := identity_table; _length := 0 |}.

Definition length (self : t) : Z := _length self.

(** [f(s)] for a function [f] stored in the table. [depth] is the number
    of further nested calls the interpreter allows before it raises
    [RecursionError]. In [new_symbol_table] the line
    [current_symbol_table = self.data] runs when the closure is called. *)
Fixpoint call (depth : nat) (self : t) (f : table_fn) (s : str)
  {struct depth} : result (option SymbolTableEntry) :=
  match f with
  | identity_table => Ok None
  | new_symbol_table identifier entry =>
      let current_symbol_table := data self in
      if decide (s = identifier) then Ok entry
      else match depth with
           | O => Raise RecursionError
           | S depth' => call depth' self current_symbol_table s
           end
  end.

Definition get (depth : nat) (identifier : str) (self : t)
  : result (option SymbolTableEntry) :=
  call depth self (data self) identifier.

Definition update (depth : nat) (identifier : str)
    (entry : option SymbolTableEntry) (self : t) : result (bool * t) :=
  found ← get depth identifier self;
  let symbol_already_exists :=
    match found with Some _ => true | None => false end in
  let self := {| data := new_symbol_table identifier entry;
                 _length := _length self |} in
  let self :=
    if negb symbol_already_exists && bool_decide (entry ≠ None) then
      {| data := data self; _length := _length self + 1 |}
    else if symbol_already_exists && bool_decide (entry = None) then
      {| data := data self; _length := _length self - 1 |}
    else self in
  mret (symbol_already_exists, self).

End FPSymbolTable.

(** ** What the scanner and the driver import from outside these files *)

(** Python's [str] predicates and [int()], per character. *)
Class PyStr : Type := {
  char_isdigit : char → bool;
  char_isalpha : char → bool;
  char_isspace : char → bool;
  int : str → result Z
}.

(** [c.isdigit()], [c.isalpha()], [c.isspace()]: every character
    qualifies and there is at least one. *)
Definition str_all (p : char → bool) (c : str) : bool :=
  match c with
  | [] => false
  | _ => forallb p c
  end.

Definition isdigit `{PyStr} (c : str) : bool := str_all char_isdigit c.
Definition isalpha `{PyStr} (c : str) : bool := str_all char_isalpha c.
Definition isspace `{PyStr} (c : str) : bool := str_all char_isspace c.

(** [ecco_token.TokenType], the token-kind catalog, and the fields a
    fresh [Token()] starts with. *)
Class TokenCatalog : Type := {
  TokenType : Type;
  TokenType_eq_dec :: EqDecision TokenType;
  EOF : TokenType;
  INTEGER_LITERAL : TokenType;
  UNKNOWN_TOKEN : TokenType;
  PRINT : TokenType;
  SEMICOLON : TokenType;
  from_string : str → TokenType;
  string_values : list str;
  TokenType_str : TokenType → str;
  Token_type0 : TokenType;
  Token_value0 : Z
}.

Record Token `{TokenCatalog} : Type := mkToken {
  type : TokenType;
  value : Z
}.

(** ** ecco_scanner.py *)

(** [file] is what is left to read of the opened program file;
    [current_token] is [None] until the first [scan]. *)
Record Scanner `{TokenCatalog} : Type := mkScanner {
  file : str;
  put_back_buffer : str;
  line_number : Z;
  char_number : Z;
  current_token : option Token
}.

Section ScannerModel.
Context `{PyStr} `{TokenCatalog}.

Definition set_file (v : str) (self : Scanner) : Scanner :=
  mkScanner _ v (put_back_buffer self) (line_number self)
    (char_number self) (current_token self).
Definition set_put_back_buffer (v : str) (self : Scanner) : Scanner :=
  mkScanner _ (file self) v (line_number self)
    (char_number self) (current_token self).
Definition set_line_number (v : Z) (self : Scanner) : Scanner :=
  mkScanner _ (file self) (put_back_buffer self) v
    (char_number self) (current_token self).
Definition set_char_number (v : Z) (self : Scanner) : Scanner :=
  mkScanner _ (file self) (put_back_buffer self) (line_number self)
    v (current_token self).
Definition set_current_token (v : option Token) (self : Scanner)
  : Scanner :=
  mkScanner _ (file self) (put_back_buffer self) (line_number self)
    (char_number self) v.

(** What a method call on the scanner does: it returns or raises, and
    leaves the scanner in a new state either way. [OutOfFuel] is the
    model running out of loop iterations, never a behaviour of the
    program. *)
Inductive res (A : Type) : Type :=
| Returns (a : A) (self : Scanner)
| Raises (e : exn) (self : Scanner)
| OutOfFuel.
#[global] Arguments Returns {A} a self.
#[global] Arguments Raises {A} e self.
#[global] Arguments OutOfFuel {A}.

Definition M (A : Type) : Type := Scanner → res A.

#[global] Instance M_ret : MRet M := fun A a self => Returns a self.
#[global] Instance M_bind : MBind M := fun A B f m self =>
  match m self with
  | Returns a self' => f a self'
  | Raises e self' => Raises e self'
  | OutOfFuel => OutOfFuel
  end.

Definition raise {A} (e : exn) : M A := fun self => Raises e self.
Definition modify (f : Scanner → Scanner) : M unit :=
  fun self => Returns tt (f self).
Definition lift {A} (r : result A) : M A := fun self =>
  match r with
  | Ok a => Returns a self
  | Raise e => Raises e self
  end.

(** [self.file.read(1)] *)
Definition read1 : M str := fun self =>
  match file self with
  | [] => Returns [] self
  | x :: rest => Returns [x] (set_file rest self)
  end.

Definition next_character : M str := fun self =>
  if bool_decide (put_back_buffer self ≠ []) then
    let c := put_back_buffer self in
    Returns c (set_put_back_buffer [] self)
  else
    (c ← read1;
     modify (fun self => set_char_number (char_number self + 1) self);;
     (if bool_decide (c = of_string (String "010" EmptyString)) then
        modify (fun self => set_line_number (line_number self + 1) self);;
        modify (set_char_number 1)
      else mret tt);;
     mret c) self.

Fixpoint skip_loop (fuel : nat) (c : str) : M str :=
  if isspace c then
    match fuel with
    | O => fun _ => OutOfFuel
    | S fuel' => c ← next_character; skip_loop fuel' c
    end
  else mret c.

Definition skip (fuel : nat) : M str :=
  c ← next_character;
  skip_loop fuel c.

Definition put_back (c : str) : M unit :=
  if bool_decide (len c ≠ 1) then raise (TypeError_put_back (len c))
  else modify (set_put_back_buffer c).

(** The [while] loop of [scan_integer_literal]; it hands back
    [in_string] and the character that ended it. *)
Fixpoint scan_integer_literal_loop (fuel : nat) (in_string c : str)
  : M (str * str) :=
  if isdigit c then
    match fuel with
    | O => fun _ => OutOfFuel
    | S fuel' =>
        let in_string := in_string ++ c in
        c ← next_character;
        scan_integer_literal_loop fuel' in_string c
    end
  else mret (in_string, c).

Definition scan_integer_literal (fuel : nat) (c : str) : M Z :=
  let in_string := [] in
  '(in_string, c) ← scan_integer_literal_loop fuel in_string c;
  put_back c;;
  lift (int in_string).

Definition underscore : str := of_string "_".

(** The [while] loop of [scan_identifier]. *)
Fixpoint scan_identifier_loop (fuel : nat) (identifier c : str)
  : M (str * str) :=
  if isalpha c || bool_decide (c = underscore) then
    match fuel with
    | O => fun _ => OutOfFuel
    | S fuel' =>
        let identifier := identifier ++ c in
        c ← next_character;
        if 512 <=? len identifier then raise EccoIdentifierError
        else scan_identifier_loop fuel' identifier c
    end
  else mret (identifier, c).

Definition scan_identifier (fuel : nat) (c : str) : M str :=
  let identifier := [] in
  '(identifier, c) ← scan_identifier_loop fuel identifier c;
  put_back c;;
  mret identifier.

(** [self.current_token.type = tt] and [self.current_token.value = v] *)
Definition set_type (tt : TokenType) : M unit := fun self =>
  match current_token self with
  | Some tok =>
      Returns () (set_current_token (Some (mkToken _ tt (value tok))) self)
  | None => Raises AttributeError self
  end.
Definition set_value (v : Z) : M unit := fun self =>
  match current_token self with
  | Some tok =>
      Returns () (set_current_token (Some (mkToken _ (type tok) v)) self)
  | None => Raises AttributeError self
  end.
Definition get_current_token : M Token := fun self =>
  match current_token self with
  | Some tok => Returns tok self
  | None => Raises AttributeError self
  end.

(** [scan]; the two [print] calls write to standard output only and are
    left out. *)
Definition scan (fuel : nat) : M Token :=
  c ← skip fuel;
  modify (set_current_token (Some (mkToken _ Token_type0 Token_value0)));;
  if bool_decide (c = []) then
    set_type EOF;;
    get_current_token
  else
    let possible_token_type := from_string c in
    (if bool_decide (possible_token_type = UNKNOWN_TOKEN) then
       if isdigit c then
         set_type INTEGER_LITERAL;;
         v ← scan_integer_literal fuel c;
         set_value v
       else if isalpha c || bool_decide (c = underscore) then
         scanned_identifier ← scan_identifier fuel c;
         if bool_decide (scanned_identifier ∈ string_values) then
           set_type (from_string scanned_identifier)
         else raise (EccoSyntaxError_identifier scanned_identifier)
       else raise (EccoSyntaxError_token c)
     else set_type possible_token_type);;
    get_current_token.

(** *** Vocabulary for the properties *)

(** The character and the state a call of [next_character] leaves;
    the call always returns. *)
Definition next_char (self : Scanner) : str :=
  match next_character self with
  | Returns c _ => c
  | _ => []
  end.
Definition next_state (self : Scanner) : Scanner :=
  match next_character self with
  | Returns _ self' => self'
  | _ => self
  end.

(** The state a computation leaves the scanner in. *)
Definition exec {A} (m : M A) (self : Scanner) : Scanner :=
  match m self with
  | Returns _ self' => self'
  | Raises _ self' => self'
  | OutOfFuel => self
  end.

(** The loop condition of [scan_identifier] on one character. *)
Definition is_identifier_char (c : char) : bool :=
  char_isalpha c || bool_decide (c = 95%N).

End ScannerModel.

(** ** statement.py *)

(** [ecco.parsing.expression.parse_binary_expression] and the AST nodes
    it builds; it works on the same scanner. *)
Class ExpressionParser `{TokenCatalog} : Type := {
  ASTNode : Type;
  parse_binary_expression : Z → M ASTNode
}.

Section StatementModel.
Context `{PyStr} `{TokenCatalog} `{!ExpressionParser}.

(** The scanner threaded through the calls is [GLOBAL_SCANNER]. *)
Definition match_token (fuel : nat) (tt : TokenType) : M unit :=
  tok ← get_current_token;
  if bool_decide (type tok = tt) then
    scan fuel;;
    mret ()
  else
    tok' ← get_current_token;
    raise (EccoSyntaxError_expected (TokenType_str tt)
             (TokenType_str (type tok'))).

(** One resumption of the generator [parse_statements]: from the head
    of the [while] loop to the next [yield] ([Some tree]) or to the end
    of the generator ([None], the caller sees [StopIteration]). After a
    [yield] the generator resumes at the head of the loop again. *)
Definition parse_statements_resume (fuel : nat) : M (option ASTNode) :=
  tok ← get_current_token;
  if bool_decide (type tok ≠ EOF) then
    match_token fuel PRINT;;
    tree ← parse_binary_expression 0;
    match_token fuel SEMICOLON;;
    mret (Some tree)
  else mret None.

End StatementModel.

(** ** A concrete setting to run the model in *)

Module Sample.

(** The ASCII part of Python's character classes. *)
Definition ascii_isdigit (c : char) : bool :=
  ((48 <=? c) && (c <=? 57))%N.
Definition ascii_isalpha (c : char) : bool :=
  (((65 <=? c) && (c <=? 90)) || ((97 <=? c) && (c <=? 122)))%N.
Definition ascii_isspace (c : char) : bool :=
  (((9 <=? c) && (c <=? 13)) || ((28 <=? c) && (c <=? 32)))%N.

Definition decimal (s : str) : Z :=
  fold_left (fun acc c => 10 * acc + (Z.of_N c - 48)) s 0.
Definition ascii_int (s : str) : result Z :=
  if str_all ascii_isdigit s then Ok (decimal s) else Raise ValueError.

Definition pystr : PyStr :=
  {| char_isdigit := ascii_isdigit;
     char_isalpha := ascii_isalpha;
     char_isspace := ascii_isspace;
     int := ascii_int |}.

Inductive kind : Type :=
| K_EOF | K_INTEGER_LITERAL | K_UNKNOWN_TOKEN | K_PRINT | K_SEMICOLON
| K_PLUS.

#[export] Instance kind_eq_dec : EqDecision kind.
Proof. solve_decision. Defined.

Definition kind_from_string (s : str) : kind :=
  if bool_decide (s = of_string "print") then K_PRINT
  else if bool_decide (s = of_string ";") then K_SEMICOLON
  else if bool_decide (s = of_string "+") then K_PLUS
  else K_UNKNOWN_TOKEN.

Definition kind_str (k : kind) : str :=
  match k with
  | K_EOF => of_string "EOF"
  | K_INTEGER_LITERAL => of_string "integer literal"
  | K_UNKNOWN_TOKEN => of_string "unknown token"
  | K_PRINT => of_string "print"
  | K_SEMICOLON => of_string ";"
  | K_PLUS => of_string "+"
  end.

Definition catalog : TokenCatalog :=
  {| TokenType := kind;
     EOF := K_EOF;
     INTEGER_LITERAL := K_INTEGER_LITERAL;
     UNKNOWN_TOKEN := K_UNKNOWN_TOKEN;
     PRINT := K_PRINT;
     SEMICOLON := K_SEMICOLON;
     from_string := kind_from_string;
     string_values := [of_string "print"; of_string ";"; of_string "+"];
     TokenType_str := kind_str;
     Token_type0 := K_UNKNOWN_TOKEN;
     Token_value0 := 0 |}.

(** An expression parser that accepts one integer literal. *)
Definition literal_parser : @ExpressionParser catalog :=
  {| ASTNode := Z;
     parse_binary_expression := fun _ =>
       tok ← @get_current_token catalog;
       if bool_decide (@type catalog tok = K_INTEGER_LITERAL) then
         @scan pystr catalog 64;;
         mret (@value catalog tok)
       else raise (ExternalError 0) |}.

(** A scanner just opened on a file that holds [text]. *)
Definition opened_on (text : str) : @Scanner catalog :=
  mkScanner catalog text [] 1 1 None.
Definition opened (text : string) : @Scanner catalog :=
  opened_on (of_string text).

(** The scanner once the first token is scanned, which is how the
    driver finds it. *)
Definition primed (text : string) : @Scanner catalog :=
  match @scan pystr catalog 64 (opened text) with
  | Returns _ self => self
  | _ => opened text
  end.

End Sample.


(** ** Further parts of the three files *)

(** The indexed access of [SymbolTableInterface], inherited by the hash
    table: [del t[key]], [t[key]] and [t[key] = value]. The answer of
    [update] is dropped. *)
Module HashTableIndexing.
Import HashTableSymbolTable.

Definition __delitem__ (key : str) (self : t) : result t :=
  '(_, self) ← update key None self;
  mret self.

Definition __getitem__ (key : str) (self : t)
  : result (option SymbolTableEntry) :=
  get key self.

Definition __setitem__ (key : str) (value : option SymbolTableEntry)
    (self : t) : result t :=
  '(_, self) ← update key value self;
  mret self.

End HashTableIndexing.

(** The same for the closure-chain table, and a run of [update] calls. *)
Module FPTableIndexing.
Import FPSymbolTable.

Definition __delitem__ (depth : nat) (key : str) (self : t) : result t :=
  '(_, self) ← update depth key None self;
  mret self.

Definition __getitem__ (depth : nat) (key : str) (self : t)
  : result (option SymbolTableEntry) :=
  get depth key self.

Definition __setitem__ (depth : nat) (key : str)
    (value : option SymbolTableEntry) (self : t) : result t :=
  '(_, self) ← update depth key value self;
  mret self.

(** [for (identifier, entry) in ops: self.update(identifier, entry)] *)
Fixpoint updates (depth : nat)
    (ops : list (str * option SymbolTableEntry)) (self : t) : result t :=
  match ops with
  | [] => Ok self
  | (identifier, entry) :: ops' =>
      '(_, self) ← update depth identifier entry self;
      updates depth ops' self
  end.

(** What [length] should be when [entry] is the binding of the one name
    in the table. *)
Definition bound (entry : option SymbolTableEntry) : Z :=
  match entry with Some _ => 1 | None => 0 end.

End FPTableIndexing.

Section ScannerVocabulary.
Context `{TokenCatalog}.

(** The scanner after [n] calls of [next_character]. *)
Definition after_reads (n : nat) (self : Scanner) : Scanner :=
  Nat.iter n next_state self.

(** The number of newline characters in a text. *)
Definition newlines (cs : str) : Z :=
  len (filter (λ c, c = 10%N) cs).

(** How many more calls of [next_character] return a character: one
    for a filled buffer, one for each character left in the file. *)
Definition pending (self : Scanner) : nat :=
  (if bool_decide (put_back_buffer self = []) then 0 else 1) +
  List.length (file self).

End ScannerVocabulary.

(** * Properties *)

(** ** Python list indexing *)

Lemma len_nonneg {A} (l : list A) : 0 <= len l.
Proof. unfold len. lia. Qed.

Lemma getitem_in_range {A} (l : list A) (i : Z) :
  0 <= i < len l →
  ∃ x, l !! Z.to_nat i = Some x ∧ getitem l i = Ok x.
Proof.
  intros Hi. unfold getitem.
  destruct (Z.ltb_spec i 0) as [?|_]; [lia|].
  destruct (Z.ltb_spec i 0) as [?|_]; [lia|].
  destruct (Z.leb_spec (len l) i) as [?|_]; [lia|]. simpl.
  destruct (lookup_lt_is_Some_2 l (Z.to_nat i)) as [x Hx].
  { unfold len in Hi. lia. }
  exists x. by rewrite Hx.
Qed.

Lemma setitem_in_range {A} (l : list A) (i : Z) (x : A) :
  0 <= i < len l → setitem l i x = Ok (<[Z.to_nat i := x]> l).
Proof.
  intros Hi. unfold setitem.
  destruct (Z.ltb_spec i 0) as [?|_]; [lia|].
  destruct (Z.ltb_spec i 0) as [?|_]; [lia|].
  destruct (Z.leb_spec (len l) i) as [?|_]; [lia|]. done.
Qed.

Lemma len_insert {A} (l : list A) (n : nat) (x : A) :
  len (<[n := x]> l) = len l.
Proof. unfold len. by rewrite length_insert. Qed.

(** ** The Hash-Indexed Table *)

Module HashTableFacts.
Import HashTableSymbolTable.

Lemma hash_range self s i : hash self s = Ok i → 0 <= i < length self.
Proof.
  unfold hash, py_mod. pose proof (len_nonneg (data self)) as Hl.
  fold (length self) in Hl.
  destruct (Z.eqb_spec (length self) 0); [done|].
  intros [= <-]. apply Z.mod_pos_bound. lia.
Qed.

(** [hash] looks at the slot count only. *)
Lemma hash_same_length self self' s :
  length self' = length self → hash self' s = hash self s.
Proof. unfold hash. by intros ->. Qed.

(** What [update] does once the index is known: it answers whether the
    slot held [None], and overwrites the slot. *)
Lemma update_at self identifier entry i :
  hash self identifier = Ok i →
  ∃ slot,
    data self !! Z.to_nat i = Some slot ∧
    update identifier entry self =
      Ok (match slot with None => true | Some _ => false end,
          {| data := <[Z.to_nat i := entry]> (data self) |}).
Proof.
  intros Hh. pose proof (hash_range _ _ _ Hh) as Hi.
  destruct (getitem_in_range (data self) i Hi) as (slot & Hslot & Hget).
  exists slot. split; [done|].
  unfold update. rewrite Hh. simpl. rewrite Hget. simpl.
  rewrite setitem_in_range by done. simpl. done.
Qed.

Lemma get_at self identifier i :
  hash self identifier = Ok i →
  ∃ slot, data self !! Z.to_nat i = Some slot ∧
          get identifier self = Ok slot.
Proof.
  intros Hh. pose proof (hash_range _ _ _ Hh) as Hi.
  destruct (getitem_in_range (data self) i Hi) as (slot & Hslot & Hget).
  exists slot. split; [done|]. unfold get. rewrite Hh. simpl. done.
Qed.

(** The answer of [update] is [true] exactly for an empty slot. *)
Lemma update_answer self identifier entry i b self' :
  hash self identifier = Ok i →
  update identifier entry self = Ok (b, self') →
  b = true ↔ getitem (data self) i = Ok None.
Proof.
  intros Hh Hu. pose proof (hash_range _ _ _ Hh) as Hi.
  destruct (update_at self identifier entry i Hh) as (slot & Hslot & Hu').
  destruct (getitem_in_range (data self) i Hi) as (slot' & Hslot' & Hget).
  rewrite Hu in Hu'. injection Hu' as -> _. rewrite Hget.
  assert (slot' = slot) as -> by congruence.
  destruct slot; split; congruence.
Qed.

(** C1, as the code has it. On a fresh table of 512 slots the slot of
    ["x"] is empty, yet [update] answers [true]; once the slot is
    occupied, [update] answers [false]. The answer is the opposite of
    "the slot was non-empty before the write". *)
Theorem update_answer_is_inverted :
  let x := of_string "x" in
  let entry := SymbolTableEntry.init x 1 in
  let self := init 512 in
  hash self x = Ok 263 ∧
  getitem (data self) 263 = Ok None ∧
  ∃ self',
    update x (Some entry) self = Ok (true, self') ∧
    getitem (data self') 263 = Ok (Some entry) ∧
    ∃ self'', update x (Some entry) self' = Ok (false, self'').
Proof.
  vm_compute. split; [done|]. split; [done|].
  eexists. split; [reflexivity|]. split; [done|].
  eexists. reflexivity.
Qed.

(** *** The hash and FNV-1a *)

Lemma lxor_mod_pow2 (h c : Z) :
  Z.lxor h c mod 2 ^ 64 = Z.lxor (h mod 2 ^ 64) c mod 2 ^ 64.
Proof.
  apply Z.bits_inj'. intros n Hn.
  destruct (Z_lt_le_dec n 64) as [Hlt|Hge].
  - rewrite !Z.mod_pow2_bits_low, !Z.lxor_spec by lia.
    by rewrite Z.mod_pow2_bits_low by lia.
  - by rewrite !Z.mod_pow2_bits_high by lia.
Qed.

Lemma hash_step_mod_pow2 (h : Z) (c : char) :
  hash_step h c mod 2 ^ 64 = fnv1a_64_step (h mod 2 ^ 64) c.
Proof.
  unfold hash_step, fnv1a_64_step, FNV_PRIME.
  rewrite Z.mul_mod by lia. rewrite lxor_mod_pow2.
  by rewrite <- Z.mul_mod by lia.
Qed.

(** The unbounded loop of [hash] and the wrapped loop agree modulo
    [2^64]. *)
Lemma hash_loop_mod_pow2 (s : str) (h : Z) :
  fold_left hash_step s h mod 2 ^ 64 =
  fold_left fnv1a_64_step s (h mod 2 ^ 64).
Proof.
  revert h. induction s as [|c s IH]; intros h; simpl; [done|].
  by rewrite IH, hash_step_mod_pow2.
Qed.

(** Where [hash] is FNV-1a modulo the slot count: when the slot count
    divides [2^64], as the default 512 does. *)
Lemma hash_fnv1a_64_length_divides self s :
  0 < length self → (length self | 2 ^ 64) →
  hash self s = Ok (fnv1a_64 s mod length self).
Proof.
  intros Hpos Hdiv. unfold hash, py_mod.
  destruct (Z.eqb_spec (length self) 0); [lia|]. f_equal.
  unfold fnv1a_64.
  change 0xCBF29CE484222325 with (FNV_OFFSET_BASIS mod 2 ^ 64).
  rewrite <- hash_loop_mod_pow2.
  symmetry. by apply Z.mod_mod_divide.
Qed.

(** C3, as the code has it. [hash] multiplies unbounded integers and
    reduces once, modulo the slot count. With 3 slots, or with the 514
    slots a default table has after [resize(2)], the index of ["a"] is
    not the 64-bit FNV-1a hash of ["a"] modulo the slot count. *)
Theorem hash_is_not_wrapped_fnv1a_64 :
  let a := of_string "a" in
  (hash (init 3) a = Ok 0 ∧ fnv1a_64 a mod length (init 3) = 1) ∧
  (hash (resize 2 (init 512)) a = Ok 432 ∧
   fnv1a_64 a mod length (resize 2 (init 512)) = 322).
Proof. vm_compute. done. Qed.

(** C4. Two names with the same index: the second [update] overwrites
    the slot of the first, and [get] of the first name returns the
    second entry. The slot count stays what it was. *)
Theorem update_collision_overwrites
    (self : t) (a b : str) (E1 : option SymbolTableEntry)
    (E2 : SymbolTableEntry) (i : Z) :
  a ≠ b →
  hash self a = Ok i →
  hash self b = Ok i →
  ∃ r1 self1 r2 self2,
    update a E1 self = Ok (r1, self1) ∧
    length self1 = length self ∧
    update b (Some E2) self1 = Ok (r2, self2) ∧
    length self2 = length self ∧
    get a self2 = Ok (Some E2) ∧
    get a self2 ≠ Ok None ∧
    (E1 ≠ Some E2 → get a self2 ≠ Ok E1).
Proof.
  intros _ Ha Hb.
  destruct (update_at self a E1 i Ha) as (slot1 & Hslot1 & Hu1).
  set (self1 := {| data := <[Z.to_nat i := E1]> (data self) |}) in *.
  assert (length self1 = length self) as Hl1.
  { unfold length, self1. simpl. apply len_insert. }
  assert (hash self1 b = Ok i) as Hb1.
  { by rewrite (hash_same_length self self1). }
  destruct (update_at self1 b (Some E2) i Hb1) as (slot2 & Hslot2 & Hu2).
  set (self2 := {| data := <[Z.to_nat i := Some E2]> (data self1) |}) in *.
  assert (length self2 = length self) as Hl2.
  { unfold length, self2. simpl. rewrite len_insert. apply Hl1. }
  assert (hash self2 a = Ok i) as Ha2.
  { by rewrite (hash_same_length self self2). }
  destruct (get_at self2 a i Ha2) as (slot & Hslot & Hget).
  assert (slot = Some E2) as ->.
  { unfold self2 in Hslot. simpl in Hslot.
    rewrite list_lookup_insert_eq in Hslot; [congruence|].
    by apply lookup_lt_Some in Hslot2. }
  eexists _, self1, _, self2. rewrite Hget.
  split; [exact Hu1|]. split; [exact Hl1|]. split; [exact Hu2|].
  split; [exact Hl2|]. split; [done|]. split; [done|]. congruence.
Qed.

Lemma update_collision_overwrites_witness :
  let a := of_string "a" in
  let b := of_string "b" in
  let E1 := SymbolTableEntry.init a 1 in
  let E2 := SymbolTableEntry.init b 2 in
  a ≠ b ∧ hash (init 1) a = Ok 0 ∧ hash (init 1) b = Ok 0 ∧
  ∃ r1 self1 r2 self2,
    update a (Some E1) (init 1) = Ok (r1, self1) ∧
    length self1 = length (init 1) ∧
    update b (Some E2) self1 = Ok (r2, self2) ∧
    length self2 = length (init 1) ∧
    get a self2 = Ok (Some E2) ∧
    get a self2 ≠ Ok None ∧
    (Some E1 ≠ Some E2 → get a self2 ≠ Ok (Some E1)).
Proof.
  intros a b E1 E2.
  assert (a ≠ b) as Hab by (vm_compute; discriminate).
  split; [exact Hab|]. split; [reflexivity|]. split; [reflexivity|].
  exact (update_collision_overwrites (init 1) a b (Some E1) E2 0
           Hab eq_refl eq_refl).
Defined.

(** C8. [resize(f)] with [f > 0] appends [f] empty slots: the slot
    count grows by [f], the old slots are a prefix of the new ones and
    read as before, and the new slots read [None]. *)
Theorem resize_appends_empty_slots (self : t) (f : Z) :
  0 < f →
  data (resize f self) = data self ++ replicate (Z.to_nat f) None ∧
  length (resize f self) = length self + f ∧
  take (List.length (data self)) (data (resize f self)) = data self ∧
  (∀ i, 0 <= i < length self →
        getitem (data (resize f self)) i = getitem (data self) i) ∧
  (∀ i, length self <= i < length self + f →
        getitem (data (resize f self)) i = Ok None).
Proof.
  intros Hf. unfold resize, length. simpl.
  assert (len (data self ++ replicate (Z.to_nat f) None) =
          len (data self) + f) as Hlen.
  { unfold len. rewrite length_app, length_replicate. lia. }
  split; [done|]. split; [done|]. split.
  { by rewrite take_app_length. }
  split.
  - intros i Hi.
    destruct (getitem_in_range (data self) i Hi) as (x & Hx & ->).
    destruct (getitem_in_range
                (data self ++ replicate (Z.to_nat f) None) i)
      as (y & Hy & ->); [lia|].
    rewrite lookup_app_l in Hy by (by apply lookup_lt_Some in Hx).
    congruence.
  - intros i Hi. pose proof (len_nonneg (data self)).
    destruct (getitem_in_range
                (data self ++ replicate (Z.to_nat f) None) i)
      as (y & Hy & ->); [lia|].
    rewrite lookup_app_r in Hy by (unfold len in *; lia).
    apply lookup_replicate in Hy as [-> _]. done.
Qed.

Lemma resize_appends_empty_slots_witness :
  let self := {| data := [Some (SymbolTableEntry.init (of_string "x") 1);
                          None] |} in
  0 < 2 ∧
  data (resize 2 self) = data self ++ replicate (Z.to_nat 2) None ∧
  length (resize 2 self) = length self + 2 ∧
  take (List.length (data self)) (data (resize 2 self)) = data self ∧
  (∀ i, 0 <= i < length self →
        getitem (data (resize 2 self)) i = getitem (data self) i) ∧
  (∀ i, length self <= i < length self + 2 →
        getitem (data (resize 2 self)) i = Ok None).
Proof.
  intros self. split; [lia|].
  apply (resize_appends_empty_slots self 2). lia.
Defined.

End HashTableFacts.

(** ** The Persistent Closure-Chain Table *)

Module FPTableFacts.
Import FPSymbolTable.

(** A lookup of the name of the latest [update] returns its entry. *)
Lemma get_latest depth identifier entry n :
  get depth identifier
    {| data := new_symbol_table identifier entry; _length := n |} =
  Ok entry.
Proof.
  unfold get. destruct depth; simpl; by rewrite decide_True.
Qed.

(** A lookup of any other name calls [self.data] again, which is the
    same closure: the calls nest until the interpreter gives up,
    whatever depth it allows. *)
Lemma get_other_name depth identifier entry n s :
  s ≠ identifier →
  get depth s
    {| data := new_symbol_table identifier entry; _length := n |} =
  Raise RecursionError.
Proof.
  intros Hne. unfold get. simpl.
  induction depth as [|depth IH]; simpl; rewrite decide_False by done.
  - done.
  - exact IH.
Qed.

(** The counter logic of one [update], given what [get] answered. *)
Lemma update_step depth identifier entry self found :
  get depth identifier self = Ok found →
  update depth identifier entry self =
    Ok (bool_decide (found ≠ None),
        {| data := new_symbol_table identifier entry;
           _length :=
             if bool_decide (found = None ∧ entry ≠ None)
             then _length self + 1
             else if bool_decide (found ≠ None ∧ entry = None)
             then _length self - 1
             else _length self |}).
Proof.
  intros Hget. unfold update. rewrite Hget. simpl.
  destruct found as [e|], entry as [e'|]; simpl; done.
Qed.

(** C2, as the code has it. After [update("a", E1)] on the empty table,
    [get("a")] returns [E1], but [get("b")] for the never-bound name
    ["b"] does not return absence: [new_symbol_table] reads [self.data]
    when it is called, finds itself, and recurses until
    [RecursionError], at every recursion depth. A following
    [update("b", E2)] fails the same way, in its initial [get]. *)
Theorem get_other_name_recurses_forever (depth : nat) :
  let a := of_string "a" in
  let b := of_string "b" in
  let E1 := SymbolTableEntry.init a 1 in
  let E2 := SymbolTableEntry.init b 2 in
  ∃ self1,
    update depth a (Some E1) init = Ok (false, self1) ∧
    get depth a self1 = Ok (Some E1) ∧
    get depth b self1 = Raise RecursionError ∧
    update depth b (Some E2) self1 = Raise RecursionError.
Proof.
  intros a b E1 E2.
  assert (b ≠ a) as Hne by (vm_compute; discriminate).
  eexists. split.
  { rewrite (update_step depth a (Some E1) init None); [reflexivity|].
    destruct depth; reflexivity. }
  simpl. split; [apply get_latest|].
  split; [by apply get_other_name|].
  unfold update. by rewrite get_other_name.
Qed.

(** C5, as the code has it. From the empty table, [update("a", E1)]
    brings [length] to 1; the next [update("b", E2)] raises
    [RecursionError] before it touches the counter, so [length] never
    reaches 2 for the two bound names. *)
Theorem length_not_counted_for_second_name (depth : nat) :
  let a := of_string "a" in
  let b := of_string "b" in
  let E1 := SymbolTableEntry.init a 1 in
  let E2 := SymbolTableEntry.init b 2 in
  ∃ self1,
    update depth a (Some E1) init = Ok (false, self1) ∧
    length self1 = 1 ∧
    update depth b (Some E2) self1 = Raise RecursionError.
Proof.
  intros a b E1 E2.
  assert (b ≠ a) as Hne by (vm_compute; discriminate).
  eexists. split.
  { rewrite (update_step depth a (Some E1) init None); [reflexivity|].
    destruct depth; reflexivity. }
  simpl. split; [reflexivity|].
  unfold update. by rewrite get_other_name.
Qed.

End FPTableFacts.

(** ** The scanner *)

Section ScannerFacts.
Context `{PyStr} `{TokenCatalog}.

(** Unfolding of the scanner monad. *)
Lemma bind_Returns {A B} (m : M A) (f : A → M B) self a self' :
  m self = Returns a self' → (m ≫= f) self = f a self'.
Proof. intros E. unfold mbind, M_bind. by rewrite E. Qed.

Lemma bind_Raises {A B} (m : M A) (f : A → M B) self e self' :
  m self = Raises e self' → (m ≫= f) self = Raises e self'.
Proof. intros E. unfold mbind, M_bind. by rewrite E. Qed.

Lemma next_character_total self :
  next_character self = Returns (next_char self) (next_state self).
Proof.
  unfold next_char, next_state, next_character.
  case_bool_decide; [done|].
  unfold mbind, M_bind, read1, modify, mret, M_ret.
  destruct (file self); simpl; try case_bool_decide; simpl; done.
Qed.

Lemma next_state_buffer self : put_back_buffer (next_state self) = [].
Proof.
  unfold next_state, next_character.
  case_bool_decide as Hb; [done|].
  unfold mbind, M_bind, read1, modify, mret, M_ret.
  destruct (file self); simpl; try case_bool_decide; simpl; done.
Qed.

Lemma next_char_read self :
  put_back_buffer self = [] →
  next_char self = match file self with [] => [] | x :: _ => [x] end.
Proof.
  intros Hb. unfold next_char, next_character.
  rewrite bool_decide_eq_false_2 by (rewrite Hb; intros Hx; by apply Hx).
  unfold mbind, M_bind, read1, modify, mret, M_ret.
  destruct (file self); simpl; try case_bool_decide; simpl; done.
Qed.

Lemma next_state_file self :
  put_back_buffer self = [] → file (next_state self) = tail (file self).
Proof.
  intros Hb. unfold next_state, next_character.
  rewrite bool_decide_eq_false_2 by (rewrite Hb; intros Hx; by apply Hx).
  unfold mbind, M_bind, read1, modify, mret, M_ret.
  destruct (file self) eqn:Hf; simpl; try case_bool_decide; simpl; done.
Qed.

(** The loop conditions on a one-character string. *)
Lemma isalpha_or_underscore (c : char) :
  isalpha [c] || bool_decide ([c] = underscore) = is_identifier_char c.
Proof.
  unfold isalpha, is_identifier_char, underscore. simpl.
  rewrite andb_true_r. f_equal. apply bool_decide_ext.
  split; [by intros [= ->]|by intros ->].
Qed.

Lemma isdigit_single (c : char) : isdigit [c] = char_isdigit c.
Proof. unfold isdigit. simpl. apply andb_true_r. Qed.

Lemma isalpha_or_underscore_empty :
  isalpha [] || bool_decide ([] = underscore) = false.
Proof. done. Qed.

Lemma len_app {A} (l1 l2 : list A) : len (l1 ++ l2) = len l1 + len l2.
Proof. unfold len. rewrite length_app. lia. Qed.

Lemma put_back_single (c : str) self :
  len c = 1 → put_back c self = Returns () (set_put_back_buffer c self).
Proof.
  intros Hc. unfold put_back.
  rewrite bool_decide_eq_false_2 by (intros Hx; by apply Hx). done.
Qed.

Lemma put_back_empty self :
  put_back [] self = Raises (TypeError_put_back 0) self.
Proof. done. Qed.

(** C7. A character [c] that [next_character] has just returned, put
    back and read again: [next_character] returns [c], and the scanner
    is in the state it was in before the round trip, line and column
    counters included. *)
Theorem put_back_round_trip (self0 self : Scanner) (c : str) :
  next_character self0 = Returns c self →
  len c = 1 →
  ∃ self1 self2,
    put_back c self = Returns () self1 ∧
    next_character self1 = Returns c self2 ∧
    line_number self2 = line_number self ∧
    char_number self2 = char_number self ∧
    self2 = self.
Proof.
  intros Hread Hc.
  assert (put_back_buffer self = []) as Hb.
  { rewrite next_character_total in Hread. injection Hread as _ <-.
    apply next_state_buffer. }
  exists (set_put_back_buffer c self), self.
  split; [by apply put_back_single|].
  assert (c ≠ []) as Hne by (intros ->; discriminate Hc).
  split; [|done].
  unfold next_character. simpl.
  rewrite bool_decide_eq_true_2 by done.
  f_equal. destruct self. simpl in *. by subst.
Qed.

(** *** The loop of [scan_identifier] *)

Lemma scan_identifier_loop_S fuel identifier c self :
  isalpha c || bool_decide (c = underscore) = true →
  scan_identifier_loop (S fuel) identifier c self =
    if 512 <=? len (identifier ++ c)
    then Raises EccoIdentifierError (next_state self)
    else scan_identifier_loop fuel (identifier ++ c)
           (next_char self) (next_state self).
Proof.
  intros Hc. simpl. rewrite Hc.
  unfold mbind, M_bind. rewrite next_character_total.
  by destruct (512 <=? _).
Qed.

Lemma scan_identifier_loop_stop fuel identifier c self :
  isalpha c || bool_decide (c = underscore) = false →
  scan_identifier_loop fuel identifier c self =
    Returns (identifier, c) self.
Proof. intros Hc. destruct fuel; simpl; by rewrite Hc. Qed.

Lemma len_cons {A} (x : A) (l : list A) : len (x :: l) = len l + 1.
Proof. unfold len. simpl. lia. Qed.

Lemma len_snoc {A} (l : list A) (x : A) : len (l ++ [x]) = len l + 1.
Proof. by rewrite len_app, len_cons. Qed.

(** The loop run over a stretch [c0 :: cs] of identifier characters that
    keeps the identifier short of 512: it accumulates them all and stands
    at the character after the stretch. *)
Lemma scan_identifier_loop_run (cs : str) :
  ∀ fuel identifier (c0 : char) self rest,
    put_back_buffer self = [] →
    file self = cs ++ rest →
    is_identifier_char c0 = true →
    forallb is_identifier_char cs = true →
    len identifier + len cs + 1 < 512 →
    ∃ s',
      put_back_buffer s' = [] ∧ file s' = rest ∧
      scan_identifier_loop (S (List.length cs) + fuel) identifier [c0] self =
      scan_identifier_loop fuel (identifier ++ c0 :: cs)
        (next_char s') (next_state s').
Proof.
  induction cs as [|y cs IH]; intros fuel identifier c0 self rest
    Hb Hf Hc0 Hcs Hlen.
  - exists self. split; [done|]. split; [done|].
    change (S (List.length (@nil N)) + fuel)%nat with (S fuel).
    rewrite scan_identifier_loop_S
      by (by rewrite isalpha_or_underscore).
    rewrite len_snoc. change (len (@nil N)) with 0 in Hlen.
    destruct (Z.leb_spec 512 (len identifier + 1)); [lia|done].
  - simpl in Hcs. apply andb_true_iff in Hcs as [Hy Hcs].
    rewrite len_cons in Hlen. pose proof (len_nonneg cs) as Hcs0.
    destruct (IH fuel (identifier ++ [c0]) y (next_state self) rest)
      as (s' & Hb' & Hf' & Hrun).
    + apply next_state_buffer.
    + rewrite next_state_file by done. by rewrite Hf.
    + done.
    + done.
    + rewrite len_snoc. lia.
    + exists s'. split; [done|]. split; [done|].
      change (S (List.length (y :: cs)) + fuel)%nat
        with (S (S (List.length cs) + fuel)).
      rewrite scan_identifier_loop_S
        by (by rewrite isalpha_or_underscore).
      rewrite len_snoc.
      destruct (Z.leb_spec 512 (len identifier + 1)); [lia|].
      assert (next_char self = [y]) as ->
        by (by rewrite next_char_read, Hf).
      rewrite Hrun. by rewrite <- app_assoc.
Qed.

Lemma scan_identifier_not_started fuel (c0 : char) self :
  is_identifier_char c0 = false →
  scan_identifier fuel [c0] self =
    Returns [] (set_put_back_buffer [c0] self).
Proof.
  intros Hc0. unfold scan_identifier.
  rewrite (bind_Returns _ _ _ ([], [c0]) self)
    by (apply scan_identifier_loop_stop; by rewrite isalpha_or_underscore).
  by rewrite (bind_Returns _ _ _ () (set_put_back_buffer [c0] self))
    by (by apply put_back_single).
Qed.

(** A stretch of fewer than 512 identifier characters followed by
    another character [d]: the stretch is returned and [d] is put
    back. *)
Lemma scan_identifier_stops fuel self (c0 : char) (cs : str) (d : char)
    (rest : str) :
  (List.length cs < fuel)%nat →
  put_back_buffer self = [] →
  file self = cs ++ d :: rest →
  is_identifier_char c0 = true →
  forallb is_identifier_char cs = true →
  is_identifier_char d = false →
  len cs + 1 < 512 →
  ∃ self',
    scan_identifier fuel [c0] self = Returns (c0 :: cs) self' ∧
    put_back_buffer self' = [d] ∧ file self' = rest.
Proof.
  intros Hfuel Hb Hf Hc0 Hcs Hd Hlen.
  replace fuel with (S (List.length cs) + (fuel - S (List.length cs)))%nat
    by lia.
  destruct (scan_identifier_loop_run cs (fuel - S (List.length cs)) []
              c0 self (d :: rest)) as (s' & Hb' & Hf' & Hrun); try done.
  assert (next_char s' = [d]) as Hd' by (by rewrite next_char_read, Hf').
  rewrite Hd', (scan_identifier_loop_stop _ _ [d]) in Hrun
    by (by rewrite isalpha_or_underscore).
  exists (set_put_back_buffer [d] (next_state s')).
  split; [|split; [done|]].
  - unfold scan_identifier. rewrite (bind_Returns _ _ _ _ _ Hrun).
    by rewrite (bind_Returns _ _ _ ()
                  (set_put_back_buffer [d] (next_state s')))
      by (by apply put_back_single).
  - simpl. rewrite next_state_file by done. by rewrite Hf'.
Qed.

(** A stretch of fewer than 512 identifier characters that runs to the
    end of the input: the end-of-input value [""] goes to [put_back],
    which raises. *)
Lemma scan_identifier_eof fuel self (c0 : char) (cs : str) :
  (List.length cs < fuel)%nat →
  put_back_buffer self = [] →
  file self = cs →
  is_identifier_char c0 = true →
  forallb is_identifier_char cs = true →
  len cs + 1 < 512 →
  ∃ self',
    scan_identifier fuel [c0] self = Raises (TypeError_put_back 0) self'.
Proof.
  intros Hfuel Hb Hf Hc0 Hcs Hlen.
  replace fuel with (S (List.length cs) + (fuel - S (List.length cs)))%nat
    by lia.
  destruct (scan_identifier_loop_run cs (fuel - S (List.length cs)) []
              c0 self []) as (s' & Hb' & Hf' & Hrun); try done.
  { by rewrite app_nil_r. }
  assert (next_char s' = []) as Hd' by (by rewrite next_char_read, Hf').
  rewrite Hd', (scan_identifier_loop_stop _ _ []) in Hrun by done.
  exists (next_state s').
  unfold scan_identifier. rewrite (bind_Returns _ _ _ _ _ Hrun).
  by rewrite (bind_Raises _ _ _ (TypeError_put_back 0) (next_state s')).
Qed.

(** 512 identifier characters in a row: the check after the 512th
    raises, whatever follows. *)
Lemma scan_identifier_too_long fuel self (c0 : char) (cs rest : str) :
  (512 ≤ fuel)%nat →
  put_back_buffer self = [] →
  file self = cs ++ rest →
  List.length cs = 511%nat →
  is_identifier_char c0 = true →
  forallb is_identifier_char cs = true →
  ∃ self', scan_identifier fuel [c0] self = Raises EccoIdentifierError self'.
Proof.
  intros Hfuel Hb Hf Hn Hc0 Hcs.
  rewrite <- (take_drop 510 cs) in Hf, Hcs.
  assert (List.length (take 510 cs) = 510%nat) as Hn1
    by (rewrite length_take; lia).
  assert (List.length (drop 510 cs) = 1%nat) as Hn2
    by (rewrite length_drop; lia).
  destruct (drop 510 cs) as [|z [|? ?]]; try discriminate Hn2.
  set (cs1 := take 510 cs) in *.
  rewrite forallb_app in Hcs. apply andb_true_iff in Hcs as [Hcs1 Hz].
  simpl in Hz. rewrite andb_true_r in Hz.
  rewrite <- app_assoc in Hf. simpl in Hf.
  replace fuel with (S (List.length cs1) + S (fuel - 512))%nat by lia.
  destruct (scan_identifier_loop_run cs1 (S (fuel - 512)) []
              c0 self (z :: rest)) as (s' & Hb' & Hf' & Hrun); try done.
  { unfold len. rewrite Hn1. simpl. lia. }
  assert (next_char s' = [z]) as Hd' by (by rewrite next_char_read, Hf').
  rewrite Hd', (scan_identifier_loop_S _ _ [z]) in Hrun
    by (by rewrite isalpha_or_underscore).
  assert (len cs1 = 510) as Hl1 by (unfold len; by rewrite Hn1).
  simpl app in Hrun. rewrite len_cons, len_snoc, Hl1 in Hrun.
  change (512 <=? 510 + 1 + 1) with true in Hrun. cbv iota in Hrun.
  exists (next_state (next_state s')).
  unfold scan_identifier. by rewrite (bind_Raises _ _ _ _ _ Hrun).
Qed.

(** Any text splits into its longest prefix of characters satisfying
    [p] and what follows. *)
Lemma longest_prefix (p : char → bool) (l : str) :
  ∃ pre post,
    l = pre ++ post ∧ forallb p pre = true ∧
    (post = [] ∨ ∃ d post', post = d :: post' ∧ p d = false).
Proof.
  induction l as [|x l (pre & post & -> & Hpre & Hpost)].
  - exists [], []. auto.
  - destruct (p x) eqn:Hx.
    + exists (x :: pre), post. simpl. rewrite Hx, Hpre. auto.
    + exists [], (x :: pre ++ post). simpl.
      split; [done|]. split; [done|]. right. by exists x, (pre ++ post).
Qed.

(** C6. [scan_identifier] started on the character [c0], the rest of
    the input being in the file. 512 alphabetic characters in a row
    raise [EccoIdentifierError]; 511 identifier characters followed by
    another character are returned, with that character put back; and
    the error is raised exactly when the first 512 characters are
    identifier characters, which is when the accumulated identifier
    reaches length 512. *)
Theorem scan_identifier_length_limit
    (fuel : nat) (self : Scanner) (c0 : char) :
  (512 ≤ fuel)%nat →
  put_back_buffer self = [] →
  (∀ ident rest,
      c0 :: file self = ident ++ rest →
      forallb char_isalpha ident = true →
      List.length ident = 512%nat →
      ∃ self',
        scan_identifier fuel [c0] self = Raises EccoIdentifierError self') ∧
  (∀ ident d rest,
      c0 :: file self = ident ++ d :: rest →
      forallb is_identifier_char ident = true →
      List.length ident = 511%nat →
      is_identifier_char d = false →
      ∃ self',
        scan_identifier fuel [c0] self = Returns ident self' ∧
        put_back_buffer self' = [d] ∧ file self' = rest) ∧
  ((∃ self',
       scan_identifier fuel [c0] self = Raises EccoIdentifierError self') ↔
   (∃ ident rest,
       c0 :: file self = ident ++ rest ∧
       forallb is_identifier_char ident = true ∧
       List.length ident = 512%nat)).
Proof.
  intros Hfuel Hb.
  assert (∀ ident rest,
             c0 :: file self = ident ++ rest →
             forallb is_identifier_char ident = true →
             List.length ident = 512%nat →
             ∃ self', scan_identifier fuel [c0] self =
                        Raises EccoIdentifierError self') as Hlong.
  { intros [|c cs] rest Hsplit Hall Hn; [discriminate Hn|].
    simpl in Hsplit. injection Hsplit as <- Hf.
    simpl in Hall. apply andb_true_iff in Hall as [Hc0 Hcs].
    apply (scan_identifier_too_long fuel self c0 cs rest); try done.
    simpl in Hn. lia. }
  split; [|split; [|split]].
  - intros ident rest Hsplit Hall Hn. apply (Hlong ident rest); try done.
    apply forallb_forall. intros x Hx.
    rewrite forallb_forall in Hall. unfold is_identifier_char.
    by rewrite (Hall x Hx).
  - intros [|c cs] d rest Hsplit Hall Hn Hd; [discriminate Hn|].
    simpl in Hsplit. injection Hsplit as <- Hf.
    simpl in Hall. apply andb_true_iff in Hall as [Hc0 Hcs].
    simpl in Hn.
    apply (scan_identifier_stops fuel self c0 cs d rest); try done; [lia|].
    unfold len. lia.
  - intros [self' Hraise].
    destruct (longest_prefix is_identifier_char (c0 :: file self))
      as (pre & post & Hsplit & Hpre & Hpost).
    destruct (le_lt_dec 512 (List.length pre)) as [Hge|Hlt].
    + exists (take 512 pre), (drop 512 pre ++ post).
      rewrite app_assoc, take_drop. split; [done|].
      rewrite <- (take_drop 512 pre), forallb_app in Hpre.
      apply andb_true_iff in Hpre as [Hpre _].
      split; [done|]. rewrite length_take. lia.
    + exfalso. destruct pre as [|c cs].
      * simpl in Hsplit. subst post.
        destruct Hpost as [?|(d & post' & [= <- <-] & Hd)]; [done|].
        rewrite scan_identifier_not_started in Hraise by done. done.
      * simpl in Hsplit. injection Hsplit as <- Hf.
        simpl in Hpre. apply andb_true_iff in Hpre as [Hc0 Hcs].
        simpl in Hlt.
        destruct Hpost as [->|(d & post' & -> & Hd)].
        -- rewrite app_nil_r in Hf.
           destruct (scan_identifier_eof fuel self c0 cs) as [s Hs];
             try done; [lia|unfold len; lia|].
           rewrite Hs in Hraise. done.
        -- destruct (scan_identifier_stops fuel self c0 cs d post')
             as (s & Hs & _); try done; [lia|unfold len; lia|].
           rewrite Hs in Hraise. done.
  - intros (ident & rest & Hsplit & Hall & Hn). by apply (Hlong ident rest).
Qed.

(** *** The loop of [scan_integer_literal] *)

Lemma scan_integer_literal_loop_S fuel in_string c self :
  isdigit c = true →
  scan_integer_literal_loop (S fuel) in_string c self =
    scan_integer_literal_loop fuel (in_string ++ c)
      (next_char self) (next_state self).
Proof.
  intros Hc. simpl. rewrite Hc.
  unfold mbind, M_bind. by rewrite next_character_total.
Qed.

Lemma scan_integer_literal_loop_stop fuel in_string c self :
  isdigit c = false →
  scan_integer_literal_loop fuel in_string c self =
    Returns (in_string, c) self.
Proof. intros Hc. destruct fuel; simpl; by rewrite Hc. Qed.

Lemma scan_integer_literal_loop_run (cs : str) :
  ∀ fuel in_string (c0 : char) self rest,
    put_back_buffer self = [] →
    file self = cs ++ rest →
    char_isdigit c0 = true →
    forallb char_isdigit cs = true →
    ∃ s',
      put_back_buffer s' = [] ∧ file s' = rest ∧
      scan_integer_literal_loop (S (List.length cs) + fuel)
        in_string [c0] self =
      scan_integer_literal_loop fuel (in_string ++ c0 :: cs)
        (next_char s') (next_state s').
Proof.
  induction cs as [|y cs IH]; intros fuel in_string c0 self rest
    Hb Hf Hc0 Hcs.
  - exists self. split; [done|]. split; [done|].
    change (S (List.length (@nil N)) + fuel)%nat with (S fuel).
    by rewrite scan_integer_literal_loop_S by (by rewrite isdigit_single).
  - simpl in Hcs. apply andb_true_iff in Hcs as [Hy Hcs].
    destruct (IH fuel (in_string ++ [c0]) y (next_state self) rest)
      as (s' & Hb' & Hf' & Hrun); try done.
    + apply next_state_buffer.
    + rewrite next_state_file by done. by rewrite Hf.
    + exists s'. split; [done|]. split; [done|].
      change (S (List.length (y :: cs)) + fuel)%nat
        with (S (S (List.length cs) + fuel)).
      rewrite scan_integer_literal_loop_S by (by rewrite isdigit_single).
      assert (next_char self = [y]) as ->
        by (by rewrite next_char_read, Hf).
      rewrite Hrun. by rewrite <- app_assoc.
Qed.

(** Digits up to the end of the input: [put_back("")] raises. *)
Lemma scan_integer_literal_eof fuel self (c0 : char) (cs : str) :
  (List.length cs < fuel)%nat →
  put_back_buffer self = [] →
  file self = cs →
  char_isdigit c0 = true →
  forallb char_isdigit cs = true →
  ∃ self',
    scan_integer_literal fuel [c0] self =
      Raises (TypeError_put_back 0) self'.
Proof.
  intros Hfuel Hb Hf Hc0 Hcs.
  replace fuel with (S (List.length cs) + (fuel - S (List.length cs)))%nat
    by lia.
  destruct (scan_integer_literal_loop_run cs (fuel - S (List.length cs)) []
              c0 self []) as (s' & Hb' & Hf' & Hrun); try done.
  { by rewrite app_nil_r. }
  assert (next_char s' = []) as Hd' by (by rewrite next_char_read, Hf').
  rewrite Hd', (scan_integer_literal_loop_stop _ _ []) in Hrun by done.
  exists (next_state s').
  unfold scan_integer_literal. rewrite (bind_Returns _ _ _ _ _ Hrun).
  by rewrite (bind_Raises _ _ _ (TypeError_put_back 0) (next_state s')).
Qed.

(** Digits followed by another character: the number is read and the
    character is put back. *)
Lemma scan_integer_literal_stops fuel self (c0 : char) (cs : str)
    (d : char) (rest : str) :
  (List.length cs < fuel)%nat →
  put_back_buffer self = [] →
  file self = cs ++ d :: rest →
  char_isdigit c0 = true →
  forallb char_isdigit cs = true →
  char_isdigit d = false →
  ∃ s',
    put_back_buffer s' = [d] ∧ file s' = rest ∧
    scan_integer_literal fuel [c0] self = lift (int (c0 :: cs)) s'.
Proof.
  intros Hfuel Hb Hf Hc0 Hcs Hd.
  replace fuel with (S (List.length cs) + (fuel - S (List.length cs)))%nat
    by lia.
  destruct (scan_integer_literal_loop_run cs (fuel - S (List.length cs)) []
              c0 self (d :: rest)) as (s' & Hb' & Hf' & Hrun); try done.
  assert (next_char s' = [d]) as Hd' by (by rewrite next_char_read, Hf').
  rewrite Hd', (scan_integer_literal_loop_stop _ _ [d]) in Hrun
    by (by rewrite isdigit_single).
  exists (set_put_back_buffer [d] (next_state s')).
  split; [done|]. split.
  { simpl. rewrite next_state_file by done. by rewrite Hf'. }
  unfold scan_integer_literal. rewrite (bind_Returns _ _ _ _ _ Hrun).
  by rewrite (bind_Returns _ _ _ ()
                (set_put_back_buffer [d] (next_state s')))
    by (by apply put_back_single).
Qed.

(** *** [skip] and [scan] on a first character that is not a space *)

Lemma skip_nonspace fuel self :
  isspace (next_char self) = false →
  skip fuel self = Returns (next_char self) (next_state self).
Proof.
  intros Hsp. unfold skip.
  rewrite (bind_Returns _ _ _ _ _ (next_character_total self)).
  destruct fuel; simpl; by rewrite Hsp.
Qed.

Lemma isspace_single (c : char) : isspace [c] = char_isspace c.
Proof. unfold isspace. simpl. apply andb_true_r. Qed.

(** [scan] up to the point where it has classified its first character
    [c0] as unknown to the catalog: the fresh token is in place. *)
Lemma scan_unknown_first fuel self (c0 : char) (cs : str) :
  put_back_buffer self = [] →
  file self = c0 :: cs →
  char_isspace c0 = false →
  from_string [c0] = UNKNOWN_TOKEN →
  ∃ s1,
    put_back_buffer s1 = [] ∧ file s1 = cs ∧
    current_token s1 = Some (mkToken _ Token_type0 Token_value0) ∧
    scan fuel self =
      ((if isdigit [c0] then
          set_type INTEGER_LITERAL;;
          v ← scan_integer_literal fuel [c0];
          set_value v
        else if isalpha [c0] || bool_decide ([c0] = underscore) then
          scanned_identifier ← scan_identifier fuel [c0];
          if bool_decide (scanned_identifier ∈ string_values) then
            set_type (from_string scanned_identifier)
          else raise (EccoSyntaxError_identifier scanned_identifier)
        else raise (EccoSyntaxError_token [c0]));;
       get_current_token) s1.
Proof.
  intros Hb Hf Hsp Hfrom.
  assert (next_char self = [c0]) as Hc by (by rewrite next_char_read, Hf).
  exists (set_current_token (Some (mkToken _ Token_type0 Token_value0))
            (next_state self)).
  split; [apply next_state_buffer|].
  split; [simpl; rewrite next_state_file by done; by rewrite Hf|].
  split; [done|].
  unfold scan.
  rewrite (bind_Returns _ _ _ [c0] (next_state self))
    by (rewrite <- Hc; apply skip_nonspace; by rewrite Hc, isspace_single).
  rewrite (bind_Returns _ _ _ ()
             (set_current_token
                (Some (mkToken _ Token_type0 Token_value0))
                (next_state self))) by done.
  rewrite bool_decide_eq_false_2 by done.
  by rewrite Hfrom, bool_decide_eq_true_2 by done.
Qed.

(** C10, amended. The rest of the input is [c0 :: cs] and nothing else.
    If it is all digits, [scan_integer_literal], called on [c0] once
    [c0] is read, raises the [TypeError] of [put_back], and so does
    [scan]. If it is all identifier characters and fewer than 512 of
    them, [scan_identifier] and [scan] raise that [TypeError] too. *)
Theorem literal_up_to_end_of_input
    (fuel : nat) (self : Scanner) (c0 : char) (cs : str) :
  (List.length cs < fuel)%nat →
  put_back_buffer self = [] →
  file self = c0 :: cs →
  (forallb char_isdigit (c0 :: cs) = true →
     (∃ self', scan_integer_literal fuel [c0] (next_state self) =
                 Raises (TypeError_put_back 0) self') ∧
     (char_isspace c0 = false → from_string [c0] = UNKNOWN_TOKEN →
      ∃ self', scan fuel self = Raises (TypeError_put_back 0) self')) ∧
  (forallb is_identifier_char (c0 :: cs) = true →
   (List.length (c0 :: cs) < 512)%nat →
     (∃ self', scan_identifier fuel [c0] (next_state self) =
                 Raises (TypeError_put_back 0) self') ∧
     (char_isspace c0 = false → char_isdigit c0 = false →
      from_string [c0] = UNKNOWN_TOKEN →
      ∃ self', scan fuel self = Raises (TypeError_put_back 0) self')).
Proof.
  intros Hfuel Hb Hf.
  assert (file (next_state self) = cs) as Hf1
    by (rewrite next_state_file by done; by rewrite Hf).
  pose proof (next_state_buffer self) as Hb1.
  split.
  - intros Hall. simpl in Hall. apply andb_true_iff in Hall as [Hc0 Hcs].
    split; [by apply (scan_integer_literal_eof fuel _ c0 cs)|].
    intros Hsp Hfrom.
    destruct (scan_unknown_first fuel self c0 cs)
      as (s1 & Hs1b & Hs1f & Hs1t & ->); try done.
    rewrite isdigit_single, Hc0.
    destruct (scan_integer_literal_eof fuel
                (set_current_token
                   (Some (mkToken _ INTEGER_LITERAL Token_value0)) s1)
                c0 cs) as [s' Hs']; try done.
    exists s'. apply bind_Raises.
    rewrite (bind_Returns _ _ _ ()
               (set_current_token
                  (Some (mkToken _ INTEGER_LITERAL Token_value0)) s1))
      by (unfold set_type; by rewrite Hs1t).
    by apply bind_Raises.
  - intros Hall Hn. simpl in Hall.
    apply andb_true_iff in Hall as [Hc0 Hcs]. simpl in Hn.
    split.
    { apply (scan_identifier_eof fuel _ c0 cs); try done.
      unfold len. lia. }
    intros Hsp Hdig Hfrom.
    destruct (scan_unknown_first fuel self c0 cs)
      as (s1 & Hs1b & Hs1f & Hs1t & ->); try done.
    rewrite isdigit_single, Hdig, isalpha_or_underscore, Hc0.
    destruct (scan_identifier_eof fuel s1 c0 cs) as [s' Hs']; try done.
    { unfold len. lia. }
    exists s'. apply bind_Raises. by apply bind_Raises.
Qed.

End ScannerFacts.

(** ** The statement driver *)

Section DriverFacts.
Context `{PyStr} `{TokenCatalog} `{!ExpressionParser}.

(** [match_token] returns exactly when the kinds are equal and the one
    [scan] it then makes returns; the scanner is where that [scan] left
    it. *)
Lemma match_token_Returns fuel tt self (u : unit) self' :
  match_token fuel tt self = Returns u self' ↔
  ∃ tok t, current_token self = Some tok ∧ type tok = tt ∧
           scan fuel self = Returns t self'.
Proof.
  unfold match_token, get_current_token, mbind, M_bind, raise.
  destruct (current_token self) as [tok|] eqn:Htok.
  2: { split; [done|]. by intros (? & ? & ? & _). }
  case_bool_decide as Htt.
  - destruct (scan fuel self) as [t s|e s|] eqn:Hscan; simpl.
    + destruct u. unfold mret, M_ret. split.
      * intros [= ->]. by exists tok, t.
      * intros (? & ? & _ & _ & [= _ ->]). done.
    + split; [done|]. by intros (? & ? & _ & _ & ?).
    + split; [done|]. by intros (? & ? & _ & _ & ?).
  - rewrite Htok. split; [done|]. intros (? & ? & [= <-] & ? & _). done.
Qed.

(** On a mismatch [match_token] raises at once, naming both kinds, and
    the scanner has not moved. *)
Lemma match_token_mismatch fuel tt self tok :
  current_token self = Some tok → type tok ≠ tt →
  match_token fuel tt self =
    Raises (EccoSyntaxError_expected (TokenType_str tt)
              (TokenType_str (type tok))) self.
Proof.
  intros Htok Hne.
  unfold match_token, get_current_token, mbind, M_bind, raise.
  rewrite Htok. simpl. rewrite bool_decide_eq_false_2 by done.
  by rewrite Htok.
Qed.

(** C9. One resumption of the driver from a scanner whose current token
    is [tok]. [match_token] scans once exactly when the kinds are equal
    and raises the syntax error naming both kinds otherwise. At
    end-of-file the driver stops without touching the scanner. Otherwise
    it yields [tree] exactly when the current token is the print
    keyword, the scan past it returns, the expression parser called with
    precedence 0 returns [tree], the token it leaves is a semicolon and
    the scan past that returns; a wrong first token or a missing
    semicolon raises the syntax error and nothing is yielded. *)
Theorem statement_driver (fuel : nat) (self : Scanner) (tok : Token) :
  current_token self = Some tok →
  (∀ tt self', match_token fuel tt self = Returns () self' ↔
               type tok = tt ∧ ∃ t, scan fuel self = Returns t self') ∧
  (∀ tt, type tok ≠ tt →
         match_token fuel tt self =
           Raises (EccoSyntaxError_expected (TokenType_str tt)
                     (TokenType_str (type tok))) self) ∧
  (∀ self', parse_statements_resume fuel self = Returns None self' ↔
            type tok = EOF ∧ self' = self) ∧
  (type tok ≠ EOF → type tok ≠ PRINT →
   parse_statements_resume fuel self =
     Raises (EccoSyntaxError_expected (TokenType_str PRINT)
               (TokenType_str (type tok))) self) ∧
  (∀ tree self',
      parse_statements_resume fuel self = Returns (Some tree) self' ↔
      type tok ≠ EOF ∧ type tok = PRINT ∧
      ∃ t1 s1 s2 tok2 t2,
        scan fuel self = Returns t1 s1 ∧
        parse_binary_expression 0 s1 = Returns tree s2 ∧
        current_token s2 = Some tok2 ∧ type tok2 = SEMICOLON ∧
        scan fuel s2 = Returns t2 self') ∧
  (∀ t1 s1 tree s2 tok2,
      type tok ≠ EOF → type tok = PRINT →
      scan fuel self = Returns t1 s1 →
      parse_binary_expression 0 s1 = Returns tree s2 →
      current_token s2 = Some tok2 → type tok2 ≠ SEMICOLON →
      parse_statements_resume fuel self =
        Raises (EccoSyntaxError_expected (TokenType_str SEMICOLON)
                  (TokenType_str (type tok2))) s2).
Proof.
  intros Htok.
  assert (∀ tt self', match_token fuel tt self = Returns () self' ↔
                      type tok = tt ∧ ∃ t, scan fuel self = Returns t self')
    as Hmatch.
  { intros tt self'. rewrite match_token_Returns. rewrite Htok. split.
    - intros (tok0 & t & [= <-] & Htt & Hscan). eauto.
    - intros (Htt & t & Hscan). by exists tok, t. }
  assert (parse_statements_resume fuel self =
          if bool_decide (type tok ≠ EOF)
          then (match_token fuel PRINT;;
                tree ← parse_binary_expression 0;
                match_token fuel SEMICOLON;; mret (Some tree)) self
          else Returns None self) as Hunfold.
  { unfold parse_statements_resume.
    rewrite (bind_Returns _ _ _ tok self)
      by (unfold get_current_token; by rewrite Htok).
    by case_bool_decide. }
  split; [exact Hmatch|].
  split; [intros tt; by apply match_token_mismatch|].
  split; [|split; [|split]].
  - intros self'. rewrite Hunfold. case_bool_decide as Heof.
    + split; [|by intros [? _]]. intros Hret. exfalso.
      unfold mbind, M_bind in Hret.
      destruct (match_token fuel PRINT self); [|done|done].
      destruct (parse_binary_expression 0 _); [|done|done].
      destruct (match_token fuel SEMICOLON _); done.
    + split; [by intros [= ->]|by intros [_ ->]].
  - intros Heof Hprint. rewrite Hunfold, bool_decide_eq_true_2 by done.
    apply bind_Raises. by apply match_token_mismatch.
  - intros tree self'. rewrite Hunfold. case_bool_decide as Heof.
    2: { split; [done|]. intros [? _]. done. }
    split.
    + intros Hret. split; [done|]. unfold mbind, M_bind in Hret.
      destruct (match_token fuel PRINT self) as [[] s1| |] eqn:Hm1;
        [|done|done].
      apply Hmatch in Hm1 as [Hprint [t1 Hscan1]].
      split; [done|].
      destruct (parse_binary_expression 0 s1) as [tree' s2| |] eqn:Hp;
        [|done|done].
      destruct (match_token fuel SEMICOLON s2) as [[] s3| |] eqn:Hm2;
        [|done|done].
      apply match_token_Returns in Hm2 as (tok2 & t2 & Htok2 & Hsemi & Hscan2).
      injection Hret as <- <-.
      by exists t1, s1, s2, tok2, t2.
    + intros (_ & Hprint & t1 & s1 & s2 & tok2 & t2 &
              Hscan1 & Hp & Htok2 & Hsemi & Hscan2).
      rewrite (bind_Returns _ _ _ () s1) by (apply Hmatch; eauto).
      rewrite (bind_Returns _ _ _ tree s2) by done.
      by rewrite (bind_Returns _ _ _ () self')
        by (apply match_token_Returns; eauto).
  - intros t1 s1 tree s2 tok2 Heof Hprint Hscan1 Hp Htok2 Hsemi.
    rewrite Hunfold, bool_decide_eq_true_2 by done.
    rewrite (bind_Returns _ _ _ () s1) by (apply Hmatch; eauto).
    rewrite (bind_Returns _ _ _ tree s2) by done.
    apply bind_Raises. by apply match_token_mismatch.
Qed.

End DriverFacts.

(** ** Runs in the concrete setting *)

Module SampleRuns.
Import Sample.

Lemma put_back_round_trip_witness :
  let self0 := opened "x;" in
  let c := of_string "x" in
  let self := next_state self0 in
  next_character self0 = Returns c self ∧ len c = 1 ∧
  ∃ self1 self2,
    put_back c self = Returns () self1 ∧
    next_character self1 = Returns c self2 ∧
    line_number self2 = line_number self ∧
    char_number self2 = char_number self ∧
    self2 = self.
Proof.
  intros self0 c self. split; [reflexivity|]. split; [reflexivity|].
  apply (put_back_round_trip self0 self c); reflexivity.
Defined.

(** 512 letters raise; 511 letters and a space return the letters. *)
Lemma scan_identifier_length_limit_witness :
  let a := 97%N in
  (∃ self', @scan_identifier pystr catalog 512 [a]
              (opened_on (replicate 511 a)) =
            Raises EccoIdentifierError self') ∧
  (∃ self', @scan_identifier pystr catalog 512 [a]
              (opened_on (replicate 510 a ++ of_string " ")) =
            Returns (replicate 511 a) self' ∧
            put_back_buffer self' = of_string " " ∧ file self' = []).
Proof.
  intros a. split.
  - destruct (@scan_identifier_length_limit pystr catalog 512
                (opened_on (replicate 511 a)) a (le_n 512) eq_refl)
      as (Hlong & _ & _).
    apply (Hlong (replicate 512 a) []); vm_compute; reflexivity.
  - destruct (@scan_identifier_length_limit pystr catalog 512
                (opened_on (replicate 510 a ++ of_string " ")) a
                (le_n 512) eq_refl)
      as (_ & Hshort & _).
    apply (Hshort (replicate 511 a) 32%N []); vm_compute; reflexivity.
Defined.

(** ["123"] and ["print"] as the whole input. *)
Lemma literal_up_to_end_of_input_witness :
  (∃ self', @scan pystr catalog 8 (opened "123") =
            Raises (TypeError_put_back 0) self') ∧
  (∃ self', @scan pystr catalog 8 (opened "print") =
            Raises (TypeError_put_back 0) self').
Proof.
  split.
  - destruct (@literal_up_to_end_of_input pystr catalog 8 (opened "123")
                49%N (of_string "23")) as [Hdigits _];
      [vm_compute; lia|reflexivity|reflexivity|].
    destruct (Hdigits eq_refl) as [_ Hscan].
    apply Hscan; reflexivity.
  - destruct (@literal_up_to_end_of_input pystr catalog 8 (opened "print")
                112%N (of_string "rint")) as [_ Hident];
      [vm_compute; lia|reflexivity|reflexivity|].
    destruct (Hident eq_refl) as [_ Hscan]; [vm_compute; lia|].
    apply Hscan; reflexivity.
Defined.

(** C10 as first stated fails for an identifier of 512 characters that
    ends the input: [scan_identifier], and [scan] with it, raise
    [EccoIdentifierError], not the [TypeError] of [put_back]. *)
Lemma long_identifier_at_end_of_input :
  let a := 97%N in
  let self := opened_on (replicate 512 a) in
  (∃ self', @scan_identifier pystr catalog 512 [a] (next_state self) =
            Raises EccoIdentifierError self') ∧
  (∃ self', @scan pystr catalog 512 self =
            Raises EccoIdentifierError self') ∧
  ¬ (∃ n self', @scan_identifier pystr catalog 512 [a] (next_state self) =
                Raises (TypeError_put_back n) self') ∧
  ¬ (∃ n self', @scan pystr catalog 512 self =
                Raises (TypeError_put_back n) self').
Proof.
  intros a self.
  assert (∃ self', @scan_identifier pystr catalog 512 [a]
                     (next_state self) =
                   Raises EccoIdentifierError self') as [s1 Hs1].
  { apply (@scan_identifier_too_long pystr catalog 512 (next_state self)
             a (replicate 511 a) []).
    - lia.
    - reflexivity.
    - vm_compute. reflexivity.
    - apply length_replicate.
    - reflexivity.
    - vm_compute. reflexivity. }
  assert (∃ self', @scan pystr catalog 512 self =
                   Raises EccoIdentifierError self') as [s2 Hs2].
  { destruct (@scan_unknown_first pystr catalog 512 self a
                (replicate 511 a) eq_refl eq_refl eq_refl eq_refl)
      as (s & Hb & Hf & _ & Hscan).
    destruct (@scan_identifier_too_long pystr catalog 512 s
                a (replicate 511 a) []) as [s' Hs'].
    - lia.
    - exact Hb.
    - rewrite app_nil_r. exact Hf.
    - apply length_replicate.
    - reflexivity.
    - vm_compute. reflexivity.
    - exists s'. rewrite Hscan. apply bind_Raises.
      change (@isdigit pystr [a]) with false.
      change (@isalpha pystr [a] || bool_decide ([a] = underscore))
        with true.
      cbv iota. by apply bind_Raises. }
  split; [by exists s1|]. split; [by exists s2|].
  split; intros (n & s & Hs); congruence.
Qed.

(** The driver on ["print 12;"], primed with its first token. *)
Lemma statement_driver_witness :
  let self := primed "print 12;" in
  let tok := @mkToken catalog K_PRINT 0 in
  current_token self = Some tok ∧
  ∃ self',
    @parse_statements_resume pystr catalog literal_parser 8 self =
      Returns (Some 12) self' ∧
    @parse_statements_resume pystr catalog literal_parser 8 self' =
      Returns None self'.
Proof.
  intros self tok. split; [reflexivity|].
  destruct (@statement_driver pystr catalog literal_parser 8 self tok
              eq_refl) as (_ & _ & _ & _ & Hyield & _).
  pose (s1 := exec (@scan pystr catalog 8) self).
  pose (s2 := exec (@parse_binary_expression catalog literal_parser 0) s1).
  pose (s3 := exec (@scan pystr catalog 8) s2).
  exists s3. split.
  - apply Hyield. split; [discriminate|]. split; [reflexivity|].
    exists (@mkToken catalog K_INTEGER_LITERAL 12), s1, s2,
      (@mkToken catalog K_SEMICOLON 0), (@mkToken catalog K_EOF 0).
    repeat split; vm_compute; reflexivity.
  - vm_compute. reflexivity.
Defined.

End SampleRuns.

(** ** More on the Hash-Indexed Table *)

Module HashTableMore.
Import HashTableSymbolTable HashTableFacts HashTableIndexing.

(** X1. A table without slots: [hash] divides by zero, and so do [update] and
    [get], for every identifier. *)
Theorem empty_table_raises (self : t) (identifier : str)
    (entry : option SymbolTableEntry) :
  length self = 0 →
  hash self identifier = Raise ZeroDivisionError ∧
  update identifier entry self = Raise ZeroDivisionError ∧
  get identifier self = Raise ZeroDivisionError.
Proof.
  intros Hl.
  assert (hash self identifier = Raise ZeroDivisionError) as Hh.
  { unfold hash, py_mod. by rewrite Hl. }
  split; [done|]. unfold update, get. by rewrite Hh.
Qed.

Lemma empty_table_raises_witness :
  length (init 0) = 0 ∧
  hash (init 0) (of_string "x") = Raise ZeroDivisionError ∧
  update (of_string "x") None (init 0) = Raise ZeroDivisionError ∧
  get (of_string "x") (init 0) = Raise ZeroDivisionError.
Proof.
  split; [reflexivity|].
  apply (empty_table_raises (init 0) (of_string "x") None). reflexivity.
Defined.

Lemma update_at_index (self : t) (identifier : str)
    (entry : option SymbolTableEntry) :
  0 < length self →
  ∃ i b self',
    hash self identifier = Ok i ∧ 0 <= i < length self ∧
    update identifier entry self = Ok (b, self') ∧
    length self' = length self ∧
    data self' = <[Z.to_nat i := entry]> (data self).
Proof.
  intros Hl.
  assert (∃ i, hash self identifier = Ok i) as [i Hi].
  { unfold hash, py_mod. destruct (Z.eqb_spec (length self) 0); [lia|].
    eauto. }
  destruct (update_at self identifier entry i Hi) as (slot & _ & Hu).
  eexists i, _, _. split; [done|]. split; [by apply (hash_range self identifier)|].
  split; [exact Hu|]. split; [|done].
  unfold length. simpl. apply len_insert.
Qed.

(** X2. On a table with at least one slot [update] always succeeds: the
    index is within the table, the slot count is kept and only that slot
    is written. *)
Theorem update_succeeds (self : t) (identifier : str)
    (entry : option SymbolTableEntry) :
  0 < length self →
  ∃ i b self',
    hash self identifier = Ok i ∧ 0 <= i < length self ∧
    update identifier entry self = Ok (b, self') ∧
    length self' = length self ∧
    data self' = <[Z.to_nat i := entry]> (data self).
Proof. apply update_at_index. Qed.

Lemma update_succeeds_witness :
  0 < length (init 4) ∧
  ∃ i b self',
    hash (init 4) (of_string "x") = Ok i ∧ 0 <= i < length (init 4) ∧
    update (of_string "x") None (init 4) = Ok (b, self') ∧
    length self' = length (init 4) ∧
    data self' = <[Z.to_nat i := None]> (data (init 4)).
Proof.
  split; [reflexivity|].
  apply (update_succeeds (init 4) (of_string "x") None). reflexivity.
Defined.

(** X3. What [update] stores under a name, [get] of that name returns,
    absence included. *)
Theorem get_after_update (self : t) (identifier : str)
    (entry : option SymbolTableEntry) :
  0 < length self →
  ∃ b self',
    update identifier entry self = Ok (b, self') ∧
    get identifier self' = Ok entry.
Proof.
  intros Hl.
  destruct (update_at_index self identifier entry Hl)
    as (i & b & self' & Hi & Hr & Hu & Hl' & Hd).
  exists b, self'. split; [done|].
  assert (hash self' identifier = Ok i) as Hi'
    by (by rewrite (hash_same_length self self')).
  destruct (get_at self' identifier i Hi') as (slot & Hslot & ->).
  rewrite Hd, list_lookup_insert_eq in Hslot; [congruence|].
  unfold length, len in Hr. lia.
Qed.

Lemma get_after_update_witness :
  let e := Some (SymbolTableEntry.init (of_string "x") 7) in
  0 < length (init 4) ∧
  ∃ b self',
    update (of_string "x") e (init 4) = Ok (b, self') ∧
    get (of_string "x") self' = Ok e.
Proof.
  intros e. split; [reflexivity|].
  apply (get_after_update (init 4) (of_string "x") e). reflexivity.
Defined.

(** X4. [update] of a name leaves [get] of every name with another index as
    it was. *)
Theorem update_other_slot (self : t) (a b : str)
    (entry : option SymbolTableEntry) (i j : Z) :
  hash self a = Ok i →
  hash self b = Ok j →
  i ≠ j →
  ∃ r self',
    update a entry self = Ok (r, self') ∧ get b self' = get b self.
Proof.
  intros Ha Hb Hij.
  destruct (update_at self a entry i Ha) as (slot & _ & Hu).
  eexists _, _. split; [exact Hu|].
  set (self' := {| data := <[Z.to_nat i := entry]> (data self) |}).
  assert (hash self' b = Ok j) as Hb'.
  { rewrite (hash_same_length self self'); [done|].
    unfold length, self'. simpl. apply len_insert. }
  destruct (get_at self b j Hb) as (s1 & Hs1 & ->).
  destruct (get_at self' b j Hb') as (s2 & Hs2 & ->).
  unfold self' in Hs2. simpl in Hs2.
  pose proof (hash_range _ _ _ Ha). pose proof (hash_range _ _ _ Hb).
  rewrite list_lookup_insert_ne in Hs2 by lia. congruence.
Qed.

Lemma update_other_slot_witness :
  let self := init 512 in
  let e := Some (SymbolTableEntry.init (of_string "a") 1) in
  hash self (of_string "a") = Ok 140 ∧
  hash self (of_string "x") = Ok 263 ∧
  140 ≠ 263 ∧
  ∃ r self',
    update (of_string "a") e self = Ok (r, self') ∧
    get (of_string "x") self' = get (of_string "x") self.
Proof.
  intros self e.
  assert (hash self (of_string "a") = Ok 140) as Ha by (vm_compute; reflexivity).
  assert (hash self (of_string "x") = Ok 263) as Hx by (vm_compute; reflexivity).
  assert (140 ≠ 263) as Hne by lia.
  split; [exact Ha|]. split; [exact Hx|]. split; [exact Hne|].
  exact (update_other_slot self (of_string "a") (of_string "x") e 140 263
           Ha Hx Hne).
Defined.

End HashTableMore.

(** ** Fresh tables, resizing and indexed access *)

Module HashTableEdges.
Import HashTableSymbolTable HashTableFacts HashTableIndexing.

(** X5. The answer of [update], whenever it returns, is [True] exactly
    when the slot of the identifier held [None] before the write. *)
Theorem update_answers_empty_slot (self self' : t) (identifier : str)
    (entry : option SymbolTableEntry) (i : Z) (b : bool) :
  hash self identifier = Ok i →
  update identifier entry self = Ok (b, self') →
  b = true ↔ getitem (data self) i = Ok None.
Proof. apply update_answer. Qed.

Lemma update_answers_empty_slot_witness :
  let x := of_string "x" in
  let self := init 4 in
  let self' := {| data := [None; None; None; None] |} in
  hash self x = Ok 3 ∧
  update x None self = Ok (true, self') ∧
  (true = true ↔ getitem (data self) 3 = Ok None).
Proof.
  intros x self self'.
  assert (hash self x = Ok 3) as Hh by reflexivity.
  assert (update x None self = Ok (true, self')) as Hu by reflexivity.
  split; [exact Hh|]. split; [exact Hu|].
  exact (update_answers_empty_slot self self' x None 3 true Hh Hu).
Defined.

(** X6. When the slot count divides [2^64], as the default 512 does,
    [hash] is the 64-bit FNV-1a hash modulo the slot count. *)
Theorem hash_is_fnv1a_64_for_dividing_length (self : t) (s : str) :
  0 < length self → (length self | 2 ^ 64) →
  hash self s = Ok (fnv1a_64 s mod length self).
Proof. apply hash_fnv1a_64_length_divides. Qed.

Lemma hash_is_fnv1a_64_for_dividing_length_witness :
  0 < length (init 512) ∧ (length (init 512) | 2 ^ 64) ∧
  hash (init 512) (of_string "x") =
    Ok (fnv1a_64 (of_string "x") mod length (init 512)).
Proof.
  assert (0 < length (init 512)) as Hpos by reflexivity.
  assert (length (init 512) | 2 ^ 64) as Hdiv
    by (exists (2 ^ 55); reflexivity).
  split; [exact Hpos|]. split; [exact Hdiv|].
  exact (hash_is_fnv1a_64_for_dividing_length (init 512) (of_string "x")
           Hpos Hdiv).
Defined.

(** X7. [HashTableSymbolTable(n)] has [n] slots, none for a negative [n],
    and every [get] on it with [n > 0] returns absence. *)
Theorem init_is_empty (n : Z) (identifier : str) :
  length (init n) = Z.max 0 n ∧
  (0 < n → get identifier (init n) = Ok None).
Proof.
  assert (length (init n) = Z.max 0 n) as Hl.
  { unfold length, init, len. simpl. rewrite length_replicate. lia. }
  split; [done|]. intros Hn.
  assert (∃ i, hash (init n) identifier = Ok i) as [i Hi].
  { unfold hash, py_mod. rewrite Hl.
    destruct (Z.eqb_spec (Z.max 0 n) 0); [lia|]. eauto. }
  destruct (get_at (init n) identifier i Hi) as (slot & Hslot & ->).
  unfold init in Hslot. simpl in Hslot.
  apply lookup_replicate in Hslot as [-> _]. done.
Qed.

Lemma init_is_empty_witness :
  length (init 4) = Z.max 0 4 ∧
  (0 < 4 → get (of_string "x") (init 4) = Ok None).
Proof. exact (init_is_empty 4 (of_string "x")). Defined.

(** X8. [resize] with a factor of zero or less changes nothing. *)
Theorem resize_nonpositive (self : t) (f : Z) :
  f <= 0 → resize f self = self.
Proof.
  intros Hf. unfold resize. destruct self as [d]. simpl.
  replace (Z.to_nat f) with 0%nat by lia. simpl. by rewrite app_nil_r.
Qed.

Lemma resize_nonpositive_witness :
  -3 <= 0 ∧ resize (-3) (init 2) = init 2.
Proof.
  split; [lia|]. apply (resize_nonpositive (init 2) (-3)). lia.
Defined.

(** X9. Indexed access on a table with at least one slot: [t[key] = value]
    then [t[key]] gives [value]; [del t[key]] then [t[key]] gives
    absence. *)
Theorem indexing_round_trip (self : t) (key : str)
    (value : option SymbolTableEntry) :
  0 < length self →
  (∃ self', __setitem__ key value self = Ok self' ∧
            length self' = length self ∧
            __getitem__ key self' = Ok value) ∧
  (∃ self', __delitem__ key self = Ok self' ∧
            length self' = length self ∧
            __getitem__ key self' = Ok None).
Proof.
  intros Hl.
  assert (∀ v, ∃ b self', update key v self = Ok (b, self') ∧
                          length self' = length self ∧
                          get key self' = Ok v) as Hput.
  { intros v.
    assert (∃ i, hash self key = Ok i) as [i Hi].
    { unfold hash, py_mod. destruct (Z.eqb_spec (length self) 0); [lia|].
      eauto. }
    destruct (update_at self key v i Hi) as (slot & Hslot & Hu).
    eexists _, _. split; [exact Hu|].
    set (self' := {| data := <[Z.to_nat i := v]> (data self) |}).
    assert (length self' = length self) as Hl'
      by (unfold length, self'; simpl; apply len_insert).
    split; [done|].
    assert (hash self' key = Ok i) as Hi'
      by (by rewrite (hash_same_length self self')).
    destruct (get_at self' key i Hi') as (slot' & Hslot' & ->).
    unfold self' in Hslot'. simpl in Hslot'.
    rewrite list_lookup_insert_eq in Hslot'; [congruence|].
    by apply lookup_lt_Some in Hslot. }
  split.
  - destruct (Hput value) as (b & self' & Hu & Hl' & Hg).
    exists self'. unfold __setitem__, __getitem__. by rewrite Hu.
  - destruct (Hput None) as (b & self' & Hu & Hl' & Hg).
    exists self'. unfold __delitem__, __getitem__. by rewrite Hu.
Qed.

Lemma indexing_round_trip_witness :
  let k := of_string "k" in
  let v := Some (SymbolTableEntry.init k 5) in
  0 < length (init 8) ∧
  (∃ self', __setitem__ k v (init 8) = Ok self' ∧
            length self' = length (init 8) ∧
            __getitem__ k self' = Ok v) ∧
  (∃ self', __delitem__ k (init 8) = Ok self' ∧
            length self' = length (init 8) ∧
            __getitem__ k self' = Ok None).
Proof.
  intros k v. split; [reflexivity|].
  apply (indexing_round_trip (init 8) k v). reflexivity.
Defined.

End HashTableEdges.

(** ** More on the Persistent Closure-Chain Table *)

Module FPTableMore.
Import FPSymbolTable FPTableFacts FPTableIndexing.

(** X10. The first binding. On a fresh table every [get] returns absence;
    the first [update] answers [False], sets [length] to 1 for an entry
    and leaves it 0 for absence, and [get] of that name returns what was
    stored. *)
Theorem first_update (depth : nat) (identifier s : str)
    (entry : option SymbolTableEntry) :
  length init = 0 ∧
  get depth s init = Ok None ∧
  ∃ self',
    update depth identifier entry init = Ok (false, self') ∧
    length self' = bound entry ∧
    get depth identifier self' = Ok entry.
Proof.
  assert (∀ x, get depth x init = Ok None) as Hfresh
    by (intros x; by destruct depth).
  split; [done|]. split; [done|].
  rewrite (update_step depth identifier entry init None) by done.
  eexists. split; [reflexivity|]. split.
  - unfold length. simpl. by destruct entry.
  - apply get_latest.
Qed.

(** X11. After any [update] that returned, a lookup or an [update] of any
    other name raises [RecursionError], whatever depth of recursion the
    interpreter allows. *)
Theorem other_name_raises (depth depth' : nat) (identifier s : str)
    (entry entry' : option SymbolTableEntry) (self self' : t) (b : bool) :
  update depth identifier entry self = Ok (b, self') →
  s ≠ identifier →
  get depth' s self' = Raise RecursionError ∧
  update depth' s entry' self' = Raise RecursionError.
Proof.
  intros Hu Hne.
  assert (∃ n, self' = {| data := new_symbol_table identifier entry;
                          _length := n |}) as [n ->].
  { destruct (get depth identifier self) as [found|e0] eqn:Hg.
    - rewrite (update_step depth identifier entry self found Hg) in Hu.
      injection Hu as _ <-. eauto.
    - unfold update in Hu. by rewrite Hg in Hu. }
  assert (get depth' s {| data := new_symbol_table identifier entry;
                          _length := n |} = Raise RecursionError) as Hg
    by (by apply get_other_name).
  split; [done|]. unfold update. by rewrite Hg.
Qed.

Lemma other_name_raises_witness :
  let a := of_string "a" in
  let b := of_string "b" in
  let E := Some (SymbolTableEntry.init a 1) in
  let self' := {| data := new_symbol_table a E; _length := 1 |} in
  update 0 a E init = Ok (false, self') ∧
  b ≠ a ∧
  get 1000 b self' = Raise RecursionError ∧
  update 1000 b None self' = Raise RecursionError.
Proof.
  intros a b E self'.
  assert (update 0 a E init = Ok (false, self')) as Hu by reflexivity.
  assert (b ≠ a) as Hne by (vm_compute; discriminate).
  split; [exact Hu|]. split; [exact Hne|].
  exact (other_name_raises 0 1000 a b E None init self' false Hu Hne).
Defined.

Lemma updates_app depth ops1 ops2 self :
  updates depth (ops1 ++ ops2) self =
  self1 ← updates depth ops1 self; updates depth ops2 self1.
Proof.
  revert self. induction ops1 as [|[id e] ops1 IH]; intros self; [done|].
  simpl. destruct (update depth id e self) as [[b s]|]; [|done].
  simpl. apply IH.
Qed.

(** One more [update] of the name the table already holds. *)
Lemma update_same_name depth identifier e0 e1 :
  update depth identifier e1
    {| data := new_symbol_table identifier e0; _length := bound e0 |} =
  Ok (bool_decide (e0 ≠ None),
      {| data := new_symbol_table identifier e1; _length := bound e1 |}).
Proof.
  rewrite (update_step depth identifier e1 _ e0) by apply get_latest.
  simpl. destruct e0, e1; simpl; done.
Qed.

Lemma last_cons_shift {A} (l : list A) :
  ∀ x d, List.last (x :: l) d = List.last l x.
Proof.
  induction l as [|y l IH]; intros x d; [done|].
  change (List.last (x :: y :: l) d) with (List.last (y :: l) d).
  by rewrite !IH.
Qed.

Lemma updates_same_name_from depth identifier es :
  ∀ e0,
    updates depth (map (pair identifier) es)
      {| data := new_symbol_table identifier e0; _length := bound e0 |} =
    Ok {| data := new_symbol_table identifier (List.last es e0);
          _length := bound (List.last es e0) |}.
Proof.
  induction es as [|e1 es IH]; intros e0; [done|].
  cbn [map updates]. rewrite update_same_name. simpl mbind.
  rewrite IH. by rewrite last_cons_shift.
Qed.

Lemma updates_one_name_state depth identifier e es :
  updates depth (map (pair identifier) (e :: es)) init =
  Ok {| data := new_symbol_table identifier (List.last es e);
        _length := bound (List.last es e) |}.
Proof.
  cbn [map updates].
  rewrite (update_step depth identifier e init None) by (by destruct depth).
  simpl mbind.
  destruct e as [e1|]; simpl; apply updates_same_name_from.
Qed.

(** X12. Any run of [update] calls on one and the same name, from the fresh
    table: every call returns, [get] of the name returns the entry of the
    last call, and [length] is 1 when that entry is present and 0 when it
    is absent. *)
Theorem updates_on_one_name (depth : nat) (identifier : str)
    (e : option SymbolTableEntry) (es : list (option SymbolTableEntry)) :
  ∃ self',
    updates depth (map (pair identifier) (e :: es)) init = Ok self' ∧
    get depth identifier self' = Ok (List.last es e) ∧
    length self' = bound (List.last es e) ∧
    0 <= length self' <= 1.
Proof.
  rewrite updates_one_name_state. eexists. split; [reflexivity|].
  split; [apply get_latest|]. unfold length. simpl.
  split; [done|]. destruct (List.last es e); simpl; lia.
Qed.

(** X13. A run of [update] calls that, after its first name, reaches a
    different name does not complete: that call raises
    [RecursionError]. *)
Theorem updates_on_two_names (depth : nat) (a b : str)
    (e e' : option SymbolTableEntry) (es : list (option SymbolTableEntry))
    (ops : list (str * option SymbolTableEntry)) :
  a ≠ b →
  updates depth (map (pair a) (e :: es) ++ (b, e') :: ops) init =
    Raise RecursionError.
Proof.
  intros Hne. rewrite updates_app, updates_one_name_state.
  simpl mbind. cbn [updates]. unfold update.
  by rewrite get_other_name.
Qed.

Lemma updates_on_two_names_witness :
  let a := of_string "a" in
  let b := of_string "b" in
  let E := Some (SymbolTableEntry.init a 1) in
  a ≠ b ∧
  updates 1000 (map (pair a) [E; None; E] ++ [(b, E); (a, None)]) init =
    Raise RecursionError.
Proof.
  intros a b E.
  assert (a ≠ b) as Hne by (vm_compute; discriminate).
  split; [exact Hne|].
  exact (updates_on_two_names 1000 a b E E [None; E] [(a, None)] Hne).
Defined.

(** X26. Indexed access on the closure-chain table, from the fresh table
    and on one key: after [t[key] = value], [t[key]] gives [value]; after
    [del t[key]], [t[key]] gives absence and [length] is back to zero. *)
Theorem fp_indexing_round_trip (depth : nat) (key : str)
    (value : option SymbolTableEntry) :
  ∃ self1 self2,
    __setitem__ depth key value init = Ok self1 ∧
    __getitem__ depth key self1 = Ok value ∧
    length self1 = bound value ∧
    __delitem__ depth key self1 = Ok self2 ∧
    __getitem__ depth key self2 = Ok None ∧
    length self2 = 0.
Proof.
  pose proof (updates_one_name_state depth key value []) as Hset.
  pose proof (updates_one_name_state depth key value [None]) as Hdel.
  cbn [map updates List.last] in Hset, Hdel.
  unfold __setitem__, __getitem__, __delitem__.
  destruct (update depth key value init) as [[b1 s1]|] eqn:Hu1; [|done].
  simpl in Hset, Hdel. injection Hset as ->.
  exists {| data := new_symbol_table key value; _length := bound value |}.
  destruct (update depth key None _) as [[b2 s2]|] eqn:Hu2; [|done].
  simpl in Hdel. injection Hdel as ->.
  eexists. split; [done|]. split; [apply get_latest|]. split; [done|].
  split; [done|]. split; [apply get_latest|done].
Qed.

End FPTableMore.

(** ** More on the scanner: reading, skipping, putting back *)

Section ScannerReading.
Context `{PyStr} `{TokenCatalog}.

Lemma newlines_app (l1 l2 : str) :
  newlines (l1 ++ l2) = newlines l1 + newlines l2.
Proof. unfold newlines. by rewrite filter_app, len_app. Qed.

Lemma newlines_nonneg (l : str) : 0 <= newlines l.
Proof. apply len_nonneg. Qed.

(** One read from the file: the line counter goes up by one on a newline
    and stays otherwise. *)
Lemma next_state_line self (x : char) (rest : str) :
  put_back_buffer self = [] →
  file self = x :: rest →
  line_number (next_state self) = line_number self + newlines [x].
Proof.
  intros Hb Hf. unfold next_state, next_character.
  rewrite bool_decide_eq_false_2 by (rewrite Hb; intros Hx; by apply Hx).
  unfold mbind, M_bind, read1, modify, mret, M_ret. rewrite Hf. simpl.
  unfold newlines. rewrite filter_cons, filter_nil.
  case_bool_decide as Hnl.
  - injection Hnl as ->. rewrite decide_True by done. simpl. done.
  - rewrite decide_False by (intros ->; by apply Hnl). simpl.
    unfold len. simpl. lia.
Qed.

(** Reading the characters [cs] off the file, one call of
    [next_character] each. *)
Lemma after_reads_spec (cs : str) :
  ∀ self rest,
    put_back_buffer self = [] →
    file self = cs ++ rest →
    put_back_buffer (after_reads (List.length cs) self) = [] ∧
    file (after_reads (List.length cs) self) = rest ∧
    line_number (after_reads (List.length cs) self) =
      line_number self + newlines cs.
Proof.
  induction cs as [|x cs IH] using rev_ind; intros self rest Hb Hf.
  - simpl. unfold newlines, len. simpl. split; [done|]. split; [done|]. lia.
  - rewrite <- app_assoc in Hf. simpl in Hf.
    destruct (IH self (x :: rest) Hb Hf) as (Hb' & Hf' & Hl').
    rewrite length_app. simpl.
    replace (List.length cs + 1)%nat with (S (List.length cs)) by lia.
    change (after_reads (S (List.length cs)) self)
      with (next_state (after_reads (List.length cs) self)).
    split; [apply next_state_buffer|]. split.
    + rewrite next_state_file by done. by rewrite Hf'.
    + rewrite (next_state_line _ x rest) by done.
      rewrite Hl', newlines_app. lia.
Qed.

Lemma skip_loop_S fuel (c : str) self :
  isspace c = true →
  skip_loop (S fuel) c self =
    skip_loop fuel (next_char self) (next_state self).
Proof.
  intros Hc. simpl. rewrite Hc.
  unfold mbind, M_bind. by rewrite next_character_total.
Qed.

Lemma skip_loop_stop fuel (c : str) self :
  isspace c = false → skip_loop fuel c self = Returns c self.
Proof. intros Hc. destruct fuel; simpl; by rewrite Hc. Qed.

Lemma skip_loop_run (ws : str) :
  ∀ fuel (c0 : char) self rest,
    put_back_buffer self = [] →
    file self = ws ++ rest →
    char_isspace c0 = true →
    forallb char_isspace ws = true →
    skip_loop (S (List.length ws) + fuel) [c0] self =
      skip_loop fuel (next_char (after_reads (List.length ws) self))
        (after_reads (S (List.length ws)) self).
Proof.
  induction ws as [|w ws IH]; intros fuel c0 self rest Hb Hf Hc0 Hws.
  - change (S (List.length (@nil N)) + fuel)%nat with (S fuel).
    by rewrite skip_loop_S by (by rewrite isspace_single).
  - simpl in Hws. apply andb_true_iff in Hws as [Hw Hws].
    change (S (List.length (w :: ws)) + fuel)%nat
      with (S (S (List.length ws) + fuel)).
    rewrite skip_loop_S by (by rewrite isspace_single).
    assert (next_char self = [w]) as ->
      by (by rewrite next_char_read, Hf).
    rewrite (IH fuel w (next_state self) rest); try done.
    + unfold after_reads. simpl List.length.
      by rewrite <- !Nat.iter_succ_r.
    + apply next_state_buffer.
    + rewrite next_state_file by done. by rewrite Hf.
Qed.

Lemma skip_over_run (fuel : nat) (self : Scanner) (ws rest : str) :
  (List.length ws ≤ fuel)%nat →
  put_back_buffer self = [] →
  file self = ws ++ rest →
  forallb char_isspace ws = true →
  (∀ c rest', rest = c :: rest' → char_isspace c = false) →
  ∃ self',
    skip fuel self = Returns (take 1 rest) self' ∧
    put_back_buffer self' = [] ∧
    file self' = drop 1 rest ∧
    line_number self' = line_number self + newlines (ws ++ take 1 rest).
Proof.
  intros Hfuel Hb Hf Hws Hrest.
  destruct (after_reads_spec ws self rest Hb Hf) as (Hb1 & Hf1 & Hl1).
  set (s1 := after_reads (List.length ws) self) in *.
  assert (next_char s1 = take 1 rest) as Hc1.
  { rewrite next_char_read, Hf1 by done. by destruct rest. }
  assert (isspace (take 1 rest) = false) as Hstop.
  { destruct rest as [|c rest']; [done|].
    change (take 1 (c :: rest')) with [c].
    rewrite isspace_single. by apply (Hrest c rest'). }
  assert (line_number (next_state s1) =
          line_number self + newlines (ws ++ take 1 rest)) as Hl2.
  { rewrite newlines_app, Z.add_assoc, <- Hl1. destruct rest as [|c rest'].
    - simpl. unfold next_state, next_character.
      rewrite bool_decide_eq_false_2
        by (rewrite Hb1; intros Hx; by apply Hx).
      unfold mbind, M_bind, read1, modify, mret, M_ret. rewrite Hf1.
      simpl. unfold newlines, len. simpl. lia.
    - by apply (next_state_line s1 c rest'). }
  exists (next_state s1).
  split; [|split; [apply next_state_buffer|split; [|done]]].
  - unfold skip.
    rewrite (bind_Returns _ _ _ _ _ (next_character_total self)).
    destruct ws as [|w ws].
    + rewrite <- Hc1. apply skip_loop_stop. by rewrite Hc1.
    + simpl in Hws. apply andb_true_iff in Hws as [Hw Hws].
      assert (next_char self = [w]) as ->
        by (by rewrite next_char_read, Hf).
      simpl in Hfuel.
      replace fuel with (S (List.length ws) + (fuel - S (List.length ws)))%nat
        by lia.
      rewrite (skip_loop_run ws _ w (next_state self) rest); try done.
      * unfold s1, after_reads. simpl List.length.
        rewrite <- !Nat.iter_succ_r.
        change (Nat.iter (S (List.length ws)) next_state self)
          with (after_reads (S (List.length ws)) self).
        fold (after_reads (S (List.length ws)) self).
        change (after_reads (S (List.length ws)) self) with s1.
        rewrite Hc1. apply skip_loop_stop. done.
      * apply next_state_buffer.
      * rewrite next_state_file by done. by rewrite Hf.
  - rewrite next_state_file by done. rewrite Hf1. by destruct rest.
Qed.

(** X14. [skip] over a run [ws] of whitespace: it returns the first
    character after the run, or the empty string at the end of the input,
    has consumed the run and that character, and the line counter has
    advanced by the newlines among them. *)
Theorem skip_whitespace (fuel : nat) (self : Scanner) (ws rest : str) :
  (List.length ws ≤ fuel)%nat →
  put_back_buffer self = [] →
  file self = ws ++ rest →
  forallb char_isspace ws = true →
  (∀ c rest', rest = c :: rest' → char_isspace c = false) →
  ∃ self',
    skip fuel self = Returns (take 1 rest) self' ∧
    put_back_buffer self' = [] ∧
    file self' = drop 1 rest ∧
    line_number self' = line_number self + newlines (ws ++ take 1 rest).
Proof. apply skip_over_run. Qed.

(** X15. The buffer holds one character: a second [put_back] replaces
    the first, which is lost, and the next read returns the second. *)
Theorem put_back_twice (self : Scanner) (c1 c2 : str) :
  len c1 = 1 → len c2 = 1 →
  (put_back c1;; put_back c2;; next_character) self =
    Returns c2 (set_put_back_buffer [] self).
Proof.
  intros H1 H2.
  rewrite (bind_Returns _ _ _ () (set_put_back_buffer c1 self))
    by (by apply put_back_single).
  rewrite (bind_Returns _ _ _ ()
             (set_put_back_buffer c2 (set_put_back_buffer c1 self)))
    by (by apply put_back_single).
  unfold next_character. simpl.
  rewrite bool_decide_eq_true_2 by (intros ->; discriminate H2).
  done.
Qed.

End ScannerReading.

(** ** [scan], token by token *)

Section ScannerTokens.
Context `{PyStr} `{TokenCatalog}.

(** [scan] up to the classification of the first character [c] after
    the whitespace [ws]: the fresh token is in place and [c] is
    consumed. *)
Lemma scan_classify fuel self (ws : str) (c : char) (rest : str) :
  (List.length ws ≤ fuel)%nat →
  put_back_buffer self = [] →
  file self = ws ++ c :: rest →
  forallb char_isspace ws = true →
  char_isspace c = false →
  ∃ s1,
    put_back_buffer s1 = [] ∧ file s1 = rest ∧
    current_token s1 = Some (mkToken _ Token_type0 Token_value0) ∧
    line_number s1 = line_number self + newlines (ws ++ [c]) ∧
    scan fuel self =
      ((if bool_decide (from_string [c] = UNKNOWN_TOKEN) then
          if isdigit [c] then
            set_type INTEGER_LITERAL;;
            v ← scan_integer_literal fuel [c];
            set_value v
          else if isalpha [c] || bool_decide ([c] = underscore) then
            scanned_identifier ← scan_identifier fuel [c];
            if bool_decide (scanned_identifier ∈ string_values) then
              set_type (from_string scanned_identifier)
            else raise (EccoSyntaxError_identifier scanned_identifier)
          else raise (EccoSyntaxError_token [c])
        else set_type (from_string [c]));;
       get_current_token) s1.
Proof.
  intros Hfuel Hb Hf Hws Hc.
  destruct (skip_over_run fuel self ws (c :: rest))
    as (s & Hskip & Hsb & Hsf & Hsl); try done.
  { by intros ? ? [= <- _]. }
  change (take 1 (c :: rest)) with [c] in *.
  exists (set_current_token (Some (mkToken _ Token_type0 Token_value0)) s).
  split; [done|]. split; [done|]. split; [done|]. split; [done|].
  unfold scan. rewrite (bind_Returns _ _ _ _ _ Hskip).
  rewrite (bind_Returns _ _ _ ()
             (set_current_token
                (Some (mkToken _ Token_type0 Token_value0)) s)) by done.
  by rewrite bool_decide_eq_false_2 by done.
Qed.

Lemma set_type_Returns tt self tok :
  current_token self = Some tok →
  set_type tt self =
    Returns () (set_current_token (Some (mkToken _ tt (value tok))) self).
Proof. intros Htok. unfold set_type. by rewrite Htok. Qed.

Lemma set_value_Returns v self tok :
  current_token self = Some tok →
  set_value v self =
    Returns () (set_current_token (Some (mkToken _ (type tok) v)) self).
Proof. intros Htok. unfold set_value. by rewrite Htok. Qed.

Lemma get_current_token_Returns self tok :
  current_token self = Some tok → get_current_token self = Returns tok self.
Proof. intros Htok. unfold get_current_token. by rewrite Htok. Qed.

(** X16. Only whitespace is left: [scan] returns the end-of-file token, which
    is also the current token, and the input is used up. *)
Theorem scan_end_of_file (fuel : nat) (self : Scanner) (ws : str) :
  (List.length ws ≤ fuel)%nat →
  put_back_buffer self = [] →
  file self = ws →
  forallb char_isspace ws = true →
  ∃ self',
    scan fuel self = Returns (mkToken _ EOF Token_value0) self' ∧
    current_token self' = Some (mkToken _ EOF Token_value0) ∧
    put_back_buffer self' = [] ∧ file self' = [].
Proof.
  intros Hfuel Hb Hf Hws.
  destruct (skip_over_run fuel self ws [])
    as (s & Hskip & Hsb & Hsf & _); try done.
  { by rewrite app_nil_r. }
  change (take 1 (@nil N)) with (@nil N) in Hskip.
  set (s1 := set_current_token
               (Some (mkToken _ Token_type0 Token_value0)) s).
  set (s2 := set_current_token (Some (mkToken _ EOF Token_value0)) s1).
  exists s2. split; [|done].
  unfold scan. rewrite (bind_Returns _ _ _ _ _ Hskip).
  rewrite (bind_Returns _ _ _ () s1) by done.
  rewrite bool_decide_eq_true_2 by done.
  rewrite (bind_Returns _ _ _ () s2) by done.
  done.
Qed.

(** X17. A character the catalog knows, after any whitespace: [scan] returns
    the token of the kind the catalog gives it and consumes exactly that
    character. *)
Theorem scan_single_character (fuel : nat) (self : Scanner)
    (ws : str) (c : char) (rest : str) :
  (List.length ws ≤ fuel)%nat →
  put_back_buffer self = [] →
  file self = ws ++ c :: rest →
  forallb char_isspace ws = true →
  char_isspace c = false →
  from_string [c] ≠ UNKNOWN_TOKEN →
  ∃ self',
    scan fuel self = Returns (mkToken _ (from_string [c]) Token_value0) self' ∧
    current_token self' = Some (mkToken _ (from_string [c]) Token_value0) ∧
    put_back_buffer self' = [] ∧ file self' = rest ∧
    line_number self' = line_number self + newlines (ws ++ [c]).
Proof.
  intros Hfuel Hb Hf Hws Hc Hknown.
  destruct (scan_classify fuel self ws c rest)
    as (s1 & Hb1 & Hf1 & Ht1 & Hl1 & ->); try done.
  rewrite bool_decide_eq_false_2 by done.
  set (s2 := set_current_token
               (Some (mkToken _ (from_string [c]) Token_value0)) s1).
  exists s2. split; [|done].
  rewrite (bind_Returns _ _ _ () s2) by (by rewrite (set_type_Returns _ _ _ Ht1)).
  done.
Qed.

(** The literal and identifier scanners leave the current token
    alone. *)
Lemma next_state_token self :
  current_token (next_state self) = current_token self.
Proof.
  unfold next_state, next_character. case_bool_decide; [done|].
  unfold mbind, M_bind, read1, modify, mret, M_ret.
  destruct (file self); simpl; try case_bool_decide; done.
Qed.

Lemma scan_integer_literal_loop_token fuel :
  ∀ in_string c self,
    match scan_integer_literal_loop fuel in_string c self with
    | Returns _ s' | Raises _ s' => current_token s' = current_token self
    | OutOfFuel => True
    end.
Proof.
  induction fuel as [|fuel IH]; intros in_string c self; simpl;
    destruct (isdigit c); try done.
  unfold mbind, M_bind. rewrite next_character_total.
  specialize (IH (in_string ++ c) (next_char self) (next_state self)).
  destruct (scan_integer_literal_loop fuel _ _ _); try done;
    by rewrite IH, next_state_token.
Qed.

Lemma scan_integer_literal_token_kept fuel c self :
  match scan_integer_literal fuel c self with
  | Returns _ s' | Raises _ s' => current_token s' = current_token self
  | OutOfFuel => True
  end.
Proof.
  unfold scan_integer_literal, mbind, M_bind.
  pose proof (scan_integer_literal_loop_token fuel [] c self) as Hloop.
  destruct (scan_integer_literal_loop fuel [] c self)
    as [[in_string c'] s1| |]; try done.
  unfold put_back, raise, modify. case_bool_decide; [done|].
  unfold lift. destruct (int in_string); done.
Qed.

Lemma scan_identifier_loop_token fuel :
  ∀ identifier c self,
    match scan_identifier_loop fuel identifier c self with
    | Returns _ s' | Raises _ s' => current_token s' = current_token self
    | OutOfFuel => True
    end.
Proof.
  induction fuel as [|fuel IH]; intros identifier c self; simpl;
    destruct (isalpha c || bool_decide (c = underscore)); try done.
  unfold mbind, M_bind. rewrite next_character_total.
  destruct (512 <=? len (identifier ++ c)).
  { unfold raise. apply next_state_token. }
  specialize (IH (identifier ++ c) (next_char self) (next_state self)).
  destruct (scan_identifier_loop fuel _ _ _); try done;
    by rewrite IH, next_state_token.
Qed.

Lemma scan_identifier_token_kept fuel c self :
  match scan_identifier fuel c self with
  | Returns _ s' | Raises _ s' => current_token s' = current_token self
  | OutOfFuel => True
  end.
Proof.
  unfold scan_identifier, mbind, M_bind.
  pose proof (scan_identifier_loop_token fuel [] c self) as Hloop.
  destruct (scan_identifier_loop fuel [] c self)
    as [[identifier c'] s1| |]; try done.
  unfold put_back, raise, modify. case_bool_decide; done.
Qed.

(** X18. Digits followed by another character [d], where the catalog does not
    know the first digit as a token of its own: [scan] returns the
    integer-literal token with the value [int] gives the digits, and [d]
    is in the putback buffer; if [int] raises, so does [scan]. *)
Theorem scan_integer_literal_token (fuel : nat) (self : Scanner)
    (ws : str) (c0 : char) (cs : str) (d : char) (rest : str) :
  (List.length ws ≤ fuel)%nat →
  (List.length cs < fuel)%nat →
  put_back_buffer self = [] →
  file self = ws ++ c0 :: cs ++ d :: rest →
  forallb char_isspace ws = true →
  char_isspace c0 = false →
  from_string [c0] = UNKNOWN_TOKEN →
  forallb char_isdigit (c0 :: cs) = true →
  char_isdigit d = false →
  match int (c0 :: cs) with
  | Ok v =>
      ∃ self',
        scan fuel self = Returns (mkToken _ INTEGER_LITERAL v) self' ∧
        current_token self' = Some (mkToken _ INTEGER_LITERAL v) ∧
        put_back_buffer self' = [d] ∧ file self' = rest
  | Raise e =>
      ∃ self',
        scan fuel self = Raises e self' ∧
        put_back_buffer self' = [d] ∧ file self' = rest
  end.
Proof.
  intros Hfuel1 Hfuel2 Hb Hf Hws Hc0 Hfrom Hdigits Hd.
  simpl in Hdigits. apply andb_true_iff in Hdigits as [Hd0 Hcs].
  destruct (scan_classify fuel self ws c0 (cs ++ d :: rest))
    as (s1 & Hb1 & Hf1 & Ht1 & Hl1 & ->); try done.
  rewrite bool_decide_eq_true_2 by done.
  rewrite isdigit_single, Hd0.
  set (s2 := set_current_token
               (Some (mkToken _ INTEGER_LITERAL Token_value0)) s1).
  destruct (scan_integer_literal_stops fuel s2 c0 cs d rest)
    as (s3 & Hb3 & Hf3 & Hlit); try done.
  pose proof (scan_integer_literal_token_kept fuel [c0] s2) as Ht3.
  rewrite Hlit in Ht3. unfold lift in Hlit, Ht3.
  destruct (int (c0 :: cs)) as [v|e].
  - set (s4 := set_current_token
                 (Some (mkToken _ INTEGER_LITERAL v)) s3).
    exists s4. split; [|done].
    rewrite (bind_Returns _ _ _ () s4); [done|].
    rewrite (bind_Returns _ _ _ () s2)
      by (by rewrite (set_type_Returns _ _ _ Ht1)).
    rewrite (bind_Returns _ _ _ _ _ Hlit).
    by rewrite (set_value_Returns _ _ _ Ht3).
  - exists s3. split; [|done].
    apply bind_Raises.
    rewrite (bind_Returns _ _ _ () s2)
      by (by rewrite (set_type_Returns _ _ _ Ht1)).
    by apply bind_Raises.
Qed.

(** X19. Identifier characters, fewer than 512, followed by another character
    [d], where the catalog does not know the first one as a token of its
    own and it is no digit. A spelling in the catalog gives the token of
    its kind; any other spelling is an unrecognized identifier. Either
    way [d] is in the putback buffer. *)
Theorem scan_keyword (fuel : nat) (self : Scanner)
    (ws : str) (c0 : char) (cs : str) (d : char) (rest : str) :
  (List.length ws ≤ fuel)%nat →
  (List.length cs < fuel)%nat →
  put_back_buffer self = [] →
  file self = ws ++ c0 :: cs ++ d :: rest →
  forallb char_isspace ws = true →
  char_isspace c0 = false →
  from_string [c0] = UNKNOWN_TOKEN →
  char_isdigit c0 = false →
  forallb is_identifier_char (c0 :: cs) = true →
  (List.length (c0 :: cs) < 512)%nat →
  is_identifier_char d = false →
  ∃ self',
    put_back_buffer self' = [d] ∧ file self' = rest ∧
    if bool_decide (c0 :: cs ∈ string_values) then
      scan fuel self =
        Returns (mkToken _ (from_string (c0 :: cs)) Token_value0) self' ∧
      current_token self' =
        Some (mkToken _ (from_string (c0 :: cs)) Token_value0)
    else
      scan fuel self = Raises (EccoSyntaxError_identifier (c0 :: cs)) self'.
Proof.
  intros Hfuel1 Hfuel2 Hb Hf Hws Hc0 Hfrom Hnd Hident Hn Hd.
  simpl in Hident. apply andb_true_iff in Hident as [Hi0 Hcs].
  simpl in Hn.
  destruct (scan_classify fuel self ws c0 (cs ++ d :: rest))
    as (s1 & Hb1 & Hf1 & Ht1 & Hl1 & Hscan); try done.
  rewrite (bool_decide_eq_true_2 (from_string [c0] = UNKNOWN_TOKEN)) in Hscan
    by done.
  rewrite isdigit_single, Hnd, isalpha_or_underscore, Hi0 in Hscan.
  rewrite Hscan. clear Hscan.
  destruct (scan_identifier_stops fuel s1 c0 cs d rest)
    as (s3 & Hid & Hb3 & Hf3); try done.
  { unfold len. lia. }
  pose proof (scan_identifier_token_kept fuel [c0] s1) as Ht3.
  rewrite Hid, Ht1 in Ht3.
  case_bool_decide as Hin.
  - set (s4 := set_current_token
                 (Some (mkToken _ (from_string (c0 :: cs)) Token_value0))
                 s3).
    exists s4. split; [done|]. split; [done|]. split; [|done].
    rewrite (bind_Returns _ _ _ () s4); [done|].
    rewrite (bind_Returns _ _ _ _ _ Hid).
    rewrite bool_decide_eq_true_2 by done.
    by rewrite (set_type_Returns _ _ _ Ht3).
  - exists s3. split; [done|]. split; [done|].
    apply bind_Raises. rewrite (bind_Returns _ _ _ _ _ Hid).
    by rewrite bool_decide_eq_false_2 by done.
Qed.

(** X20. A character that is no whitespace, no digit, no letter, no
    underscore and unknown to the catalog: [scan] raises the syntax error
    that quotes it. *)
Theorem scan_unrecognized_character (fuel : nat) (self : Scanner)
    (ws : str) (c : char) (rest : str) :
  (List.length ws ≤ fuel)%nat →
  put_back_buffer self = [] →
  file self = ws ++ c :: rest →
  forallb char_isspace ws = true →
  char_isspace c = false →
  from_string [c] = UNKNOWN_TOKEN →
  char_isdigit c = false →
  is_identifier_char c = false →
  ∃ self',
    scan fuel self = Raises (EccoSyntaxError_token [c]) self' ∧
    put_back_buffer self' = [] ∧ file self' = rest.
Proof.
  intros Hfuel Hb Hf Hws Hc Hfrom Hnd Hni.
  destruct (scan_classify fuel self ws c rest)
    as (s1 & Hb1 & Hf1 & Ht1 & Hl1 & ->); try done.
  rewrite bool_decide_eq_true_2 by done.
  rewrite isdigit_single, Hnd, isalpha_or_underscore, Hni.
  exists s1. split; [|done]. by apply bind_Raises.
Qed.

End ScannerTokens.

(** ** Termination and what [scan] leaves behind *)

Section ScannerTermination.
Context `{PyStr} `{TokenCatalog}.

Lemma next_state_pending self :
  pending (next_state self) = Nat.pred (pending self).
Proof.
  unfold pending. rewrite next_state_buffer.
  rewrite (bool_decide_eq_true_2 ([] = [])) by done.
  case_bool_decide as Hb.
  - rewrite next_state_file by done. by destruct (file self).
  - unfold next_state, next_character.
    rewrite bool_decide_eq_true_2 by done. done.
Qed.

Lemma next_char_exhausted self : pending self = 0%nat → next_char self = [].
Proof.
  unfold pending. case_bool_decide as Hb; [|done]. intros Hp.
  rewrite next_char_read by done. by destruct (file self).
Qed.

Lemma isspace_nonempty (c : str) : isspace c = true → c ≠ [].
Proof. by intros Hc ->. Qed.

(** The three loops end before the fuel does when the fuel exceeds what
    is left to read, and they never add to it. *)
Lemma skip_loop_terminates fuel :
  ∀ c self,
    (pending self < fuel)%nat →
    match skip_loop fuel c self with
    | Returns _ s' | Raises _ s' =>
        (pending s' ≤ pending self)%nat ∧
        (put_back_buffer self = [] → put_back_buffer s' = [])
    | OutOfFuel => False
    end.
Proof.
  induction fuel as [|fuel IH]; intros c self Hp; [lia|].
  destruct (isspace c) eqn:Hc.
  2: { by rewrite skip_loop_stop. }
  rewrite skip_loop_S by done.
  destruct (decide (pending self = 0%nat)) as [Hz|Hnz].
  - rewrite next_char_exhausted, skip_loop_stop by done.
    rewrite next_state_pending, next_state_buffer. split; [lia|done].
  - specialize (IH (next_char self) (next_state self)).
    rewrite next_state_pending, next_state_buffer in IH.
    assert (Nat.pred (pending self) < fuel)%nat as Hlt by lia.
    specialize (IH Hlt).
    destruct (skip_loop fuel _ _) as [? s'|? s'|]; [| |done];
      destruct IH as [Hle Hbuf]; (split; [lia|by intros _; apply Hbuf]).
Qed.

Lemma scan_integer_literal_loop_terminates fuel :
  ∀ in_string c self,
    (pending self < fuel)%nat →
    match scan_integer_literal_loop fuel in_string c self with
    | Returns _ s' | Raises _ s' =>
        put_back_buffer self = [] → put_back_buffer s' = []
    | OutOfFuel => False
    end.
Proof.
  induction fuel as [|fuel IH]; intros in_string c self Hp; [lia|].
  destruct (isdigit c) eqn:Hc.
  2: { by rewrite scan_integer_literal_loop_stop. }
  rewrite scan_integer_literal_loop_S by done.
  destruct (decide (pending self = 0%nat)) as [Hz|Hnz].
  - rewrite next_char_exhausted, scan_integer_literal_loop_stop by done.
    intros _. apply next_state_buffer.
  - specialize (IH (in_string ++ c) (next_char self) (next_state self)).
    rewrite next_state_pending, next_state_buffer in IH.
    assert (Nat.pred (pending self) < fuel)%nat as Hlt by lia.
    specialize (IH Hlt).
    destruct (scan_integer_literal_loop fuel _ _ _) as [? s'|? s'|]; [| |done];
      intros _; by apply IH.
Qed.

Lemma scan_identifier_loop_terminates fuel :
  ∀ identifier c self,
    (pending self < fuel)%nat →
    match scan_identifier_loop fuel identifier c self with
    | Returns _ s' | Raises _ s' =>
        put_back_buffer self = [] → put_back_buffer s' = []
    | OutOfFuel => False
    end.
Proof.
  induction fuel as [|fuel IH]; intros identifier c self Hp; [lia|].
  destruct (isalpha c || bool_decide (c = underscore)) eqn:Hc.
  2: { by rewrite scan_identifier_loop_stop. }
  rewrite scan_identifier_loop_S by done.
  destruct (512 <=? len (identifier ++ c)).
  { intros _. apply next_state_buffer. }
  destruct (decide (pending self = 0%nat)) as [Hz|Hnz].
  - rewrite next_char_exhausted, scan_identifier_loop_stop by done.
    intros _. apply next_state_buffer.
  - specialize (IH (identifier ++ c) (next_char self) (next_state self)).
    rewrite next_state_pending, next_state_buffer in IH.
    assert (Nat.pred (pending self) < fuel)%nat as Hlt by lia.
    specialize (IH Hlt).
    destruct (scan_identifier_loop fuel _ _ _) as [? s'|? s'|]; [| |done];
      intros _; by apply IH.
Qed.

(** [skip] returns, with an empty buffer and no more left to read than
    before. *)
Lemma skip_terminates fuel self :
  (pending self < fuel)%nat →
  ∃ c s', skip fuel self = Returns c s' ∧
          put_back_buffer s' = [] ∧ (pending s' ≤ pending self)%nat.
Proof.
  intros Hp. unfold skip.
  rewrite (bind_Returns _ _ _ _ _ (next_character_total self)).
  pose proof (skip_loop_terminates fuel (next_char self) (next_state self))
    as Hloop.
  rewrite next_state_pending, next_state_buffer in Hloop.
  assert (∀ c' s, skip_loop fuel (next_char self) (next_state self) ≠
                  Raises c' s) as Hnr.
  { clear. generalize (next_char self) (next_state self).
    induction fuel as [|fuel IH]; intros c s e s'; simpl;
      destruct (isspace c); try done.
    unfold mbind, M_bind. rewrite next_character_total. apply IH. }
  destruct (skip_loop fuel _ _) as [c s'|e s'|].
  - destruct Hloop as [Hle Hb]; [lia|]. exists c, s'.
    split; [done|]. split; [by apply Hb|lia].
  - by destruct (Hnr e s').
  - destruct Hloop. lia.
Qed.

(** X21. [scan] always ends: fuel beyond what is left to read is never used
    up. *)
Theorem scan_terminates (fuel : nat) (self : Scanner) :
  (pending self < fuel)%nat →
  scan fuel self ≠ OutOfFuel.
Proof.
  intros Hp. unfold scan.
  destruct (skip_terminates fuel self Hp) as (c & s1 & Hskip & Hb1 & Hp1).
  rewrite (bind_Returns _ _ _ _ _ Hskip).
  set (s2 := set_current_token
               (Some (mkToken _ Token_type0 Token_value0)) s1).
  rewrite (bind_Returns _ _ _ () s2) by done.
  assert (pending s2 < fuel)%nat as Hp2 by (unfold s2, pending in *; simpl; lia).
  case_bool_decide.
  { unfold mbind, M_bind, set_type, get_current_token. simpl. done. }
  unfold mbind at 1. unfold M_bind at 1.
  assert (∀ (m : M unit) s, m s ≠ OutOfFuel →
            match m s with
            | Returns a s' => get_current_token s'
            | Raises e s' => Raises e s'
            | OutOfFuel => OutOfFuel
            end ≠ OutOfFuel) as Hlast.
  { intros m s Hm. destruct (m s) as [? s'|? s'|]; try done.
    unfold get_current_token. by destruct (current_token s'). }
  apply Hlast.
  case_bool_decide.
  2: { unfold set_type. by destruct (current_token s2). }
  destruct (isdigit c).
  { unfold mbind, M_bind, set_type. simpl.
    set (s3 := set_current_token _ s2).
    pose proof (scan_integer_literal_loop_terminates fuel [] c s3) as Hloop.
    unfold scan_integer_literal, mbind, M_bind.
    destruct (scan_integer_literal_loop fuel [] c s3)
      as [[in_string c'] s4|? s4|]; [|done|exfalso; apply Hloop; exact Hp2].
    unfold put_back, raise, modify. case_bool_decide; [done|].
    unfold lift. destruct (int in_string); [|done].
    unfold set_value. simpl. by destruct (current_token s4). }
  destruct (isalpha c || bool_decide (c = underscore)); [|done].
  pose proof (scan_identifier_loop_terminates fuel [] c s2) as Hloop.
  unfold mbind, M_bind, scan_identifier, mbind, M_bind.
  destruct (scan_identifier_loop fuel [] c s2)
    as [[identifier c'] s4|? s4|]; [|done|exfalso; apply Hloop; exact Hp2].
  unfold put_back, raise, modify. case_bool_decide; [done|].
  unfold mret, M_ret. case_bool_decide; [|done].
  unfold set_type. simpl. by destruct (current_token s4).
Qed.

Lemma identifier_test_nonempty (c : str) :
  isalpha c || bool_decide (c = underscore) = true → 1 <= len c.
Proof.
  destruct c as [|x c]; [done|]. intros _. rewrite len_cons.
  pose proof (len_nonneg c). lia.
Qed.

Lemma scan_identifier_loop_bounded fuel :
  ∀ identifier c self,
    len identifier < 512 →
    512 <= Z.of_nat fuel + len identifier →
    scan_identifier_loop fuel identifier c self ≠ OutOfFuel.
Proof.
  induction fuel as [|fuel IH]; intros identifier c self Hlt Hfuel.
  { lia. }
  destruct (isalpha c || bool_decide (c = underscore)) eqn:Hc.
  2: { by rewrite scan_identifier_loop_stop. }
  rewrite scan_identifier_loop_S by done.
  pose proof (identifier_test_nonempty c Hc) as Hlen.
  destruct (Z.leb_spec 512 (len (identifier ++ c))) as [Hge|Hlt']; [done|].
  apply IH; [done|]. rewrite len_app. lia.
Qed.

(** X22. The loop of [scan_identifier] ends within 512 turns on every
    input, however long: each turn adds at least one character and the
    512th raises. *)
Theorem scan_identifier_terminates (fuel : nat) (c : str) (self : Scanner) :
  (512 ≤ fuel)%nat →
  scan_identifier fuel c self ≠ OutOfFuel.
Proof.
  intros Hfuel. unfold scan_identifier, mbind, M_bind.
  pose proof (scan_identifier_loop_bounded fuel [] c self) as Hloop.
  destruct (scan_identifier_loop fuel [] c self)
    as [[identifier c'] s1|e s1|].
  - unfold put_back, raise, modify. by case_bool_decide.
  - done.
  - exfalso. apply Hloop; [done| |done].
    change (len (@nil N)) with 0. lia.
Qed.

(** *** What [scan] leaves behind *)

Lemma skip_loop_buffer fuel :
  ∀ c self,
    match skip_loop fuel c self with
    | Returns _ s' | Raises _ s' =>
        put_back_buffer self = [] → put_back_buffer s' = []
    | OutOfFuel => True
    end.
Proof.
  induction fuel as [|fuel IH]; intros c self;
    (destruct (isspace c) eqn:Hc; [|by rewrite skip_loop_stop]).
  { simpl. by rewrite Hc. }
  rewrite skip_loop_S by done.
  specialize (IH (next_char self) (next_state self)).
  destruct (skip_loop fuel _ _); try done;
    intros _; apply IH, next_state_buffer.
Qed.

Lemma scan_integer_literal_loop_buffer fuel :
  ∀ in_string c self,
    match scan_integer_literal_loop fuel in_string c self with
    | Returns _ s' | Raises _ s' =>
        put_back_buffer self = [] → put_back_buffer s' = []
    | OutOfFuel => True
    end.
Proof.
  induction fuel as [|fuel IH]; intros in_string c self;
    (destruct (isdigit c) eqn:Hc;
     [|by rewrite scan_integer_literal_loop_stop]).
  { simpl. by rewrite Hc. }
  rewrite scan_integer_literal_loop_S by done.
  specialize (IH (in_string ++ c) (next_char self) (next_state self)).
  destruct (scan_integer_literal_loop fuel _ _ _); try done;
    intros _; apply IH, next_state_buffer.
Qed.

Lemma scan_identifier_loop_buffer fuel :
  ∀ identifier c self,
    match scan_identifier_loop fuel identifier c self with
    | Returns _ s' | Raises _ s' =>
        put_back_buffer self = [] → put_back_buffer s' = []
    | OutOfFuel => True
    end.
Proof.
  induction fuel as [|fuel IH]; intros identifier c self;
    (destruct (isalpha c || bool_decide (c = underscore)) eqn:Hc;
     [|by rewrite scan_identifier_loop_stop]).
  { simpl. by rewrite Hc. }
  rewrite scan_identifier_loop_S by done.
  destruct (512 <=? len (identifier ++ c)).
  { intros _. apply next_state_buffer. }
  specialize (IH (identifier ++ c) (next_char self) (next_state self)).
  destruct (scan_identifier_loop fuel _ _ _); try done;
    intros _; apply IH, next_state_buffer.
Qed.

(** [put_back] after a loop that left the buffer empty: at most one
    character is buffered, whether it returns or raises. *)
Lemma put_back_buffer_ok (c : str) self :
  put_back_buffer self = [] →
  match put_back c self with
  | Returns _ s' | Raises _ s' => len (put_back_buffer s') <= 1
  | OutOfFuel => True
  end.
Proof.
  intros Hb. unfold put_back, raise, modify.
  case_bool_decide as Hc; simpl.
  - by rewrite Hb.
  - lia.
Qed.

(** X23. Whatever state [scan] starts from: a token it returns is the current
    token afterwards, and whether it returns or raises, the putback
    buffer then holds at most one character. *)
Theorem scan_outcome (fuel : nat) (self : Scanner) :
  match scan fuel self with
  | Returns tok s' =>
      current_token s' = Some tok ∧ len (put_back_buffer s') <= 1
  | Raises _ s' => len (put_back_buffer s') <= 1
  | OutOfFuel => True
  end.
Proof.
  assert (∀ (m : M unit) s,
             match m s with
             | Returns _ s' | Raises _ s' => len (put_back_buffer s') <= 1
             | OutOfFuel => True
             end →
             match (m;; get_current_token) s with
             | Returns tok s' =>
                 current_token s' = Some tok ∧ len (put_back_buffer s') <= 1
             | Raises _ s' => len (put_back_buffer s') <= 1
             | OutOfFuel => True
             end) as Hlast.
  { intros m s Hm. unfold mbind, M_bind.
    destruct (m s) as [? s'|? s'|]; try done.
    unfold get_current_token.
    destruct (current_token s') eqn:Ht; [split; [done|exact Hm]|exact Hm]. }
  unfold scan. unfold mbind at 1. unfold M_bind at 1.
  assert (match skip fuel self with
          | Returns _ s' | Raises _ s' => put_back_buffer s' = []
          | OutOfFuel => True
          end) as Hskip.
  { unfold skip, mbind, M_bind. rewrite next_character_total.
    pose proof (skip_loop_buffer fuel (next_char self) (next_state self))
      as Hloop.
    destruct (skip_loop fuel _ _); try done; apply Hloop, next_state_buffer. }
  destruct (skip fuel self) as [c s1|e s1|]; [|by rewrite Hskip|done].
  set (s2 := set_current_token
               (Some (mkToken _ Token_type0 Token_value0)) s1).
  assert (put_back_buffer s2 = []) as Hb2 by done.
  rewrite (bind_Returns _ _ _ () s2) by done.
  case_bool_decide.
  { apply Hlast. unfold set_type. simpl. by rewrite Hskip. }
  apply Hlast.
  case_bool_decide.
  2: { unfold set_type. simpl. by rewrite Hskip. }
  destruct (isdigit c).
  { unfold mbind, M_bind, set_type. simpl.
    set (s3 := set_current_token _ s2).
    pose proof (scan_integer_literal_loop_buffer fuel [] c s3) as Hloop.
    unfold scan_integer_literal, mbind, M_bind.
    destruct (scan_integer_literal_loop fuel [] c s3)
      as [[in_string c'] s4|? s4|]; [|by rewrite Hloop|done].
    pose proof (put_back_buffer_ok c' s4 (Hloop Hb2)) as Hput.
    destruct (put_back c' s4) as [? s5|? s5|]; [|done|done].
    unfold lift. destruct (int in_string); [|done].
    unfold set_value. by destruct (current_token s5). }
  destruct (isalpha c || bool_decide (c = underscore)).
  2: { unfold raise. by rewrite Hb2. }
  pose proof (scan_identifier_loop_buffer fuel [] c s2) as Hloop.
  unfold mbind, M_bind, scan_identifier, mbind, M_bind.
  destruct (scan_identifier_loop fuel [] c s2)
    as [[identifier c'] s4|? s4|]; [|by rewrite Hloop|done].
  pose proof (put_back_buffer_ok c' s4 (Hloop Hb2)) as Hput.
  destruct (put_back c' s4) as [? s5|? s5|]; [|done|done].
  unfold mret, M_ret. case_bool_decide; [|done].
  unfold set_type. by destruct (current_token s5).
Qed.

End ScannerTermination.

(** ** The two literal scanners, called on their own *)

Section ScannerLiterals.
Context `{PyStr} `{TokenCatalog}.

(** X24. Digits followed by another character [d]: [scan_integer_literal]
    hands the digits to [int], puts [d] back, and leaves the current
    token as it was. *)
Theorem scan_integer_literal_returns (fuel : nat) (self : Scanner)
    (c0 : char) (cs : str) (d : char) (rest : str) :
  (List.length cs < fuel)%nat →
  put_back_buffer self = [] →
  file self = cs ++ d :: rest →
  forallb char_isdigit (c0 :: cs) = true →
  char_isdigit d = false →
  ∃ self',
    scan_integer_literal fuel [c0] self = lift (int (c0 :: cs)) self' ∧
    put_back_buffer self' = [d] ∧ file self' = rest ∧
    current_token self' = current_token self.
Proof.
  intros Hfuel Hb Hf Hdigits Hd.
  simpl in Hdigits. apply andb_true_iff in Hdigits as [Hd0 Hcs].
  destruct (scan_integer_literal_stops fuel self c0 cs d rest)
    as (s' & Hb' & Hf' & Hlit); try done.
  exists s'. split; [done|]. split; [done|]. split; [done|].
  pose proof (scan_integer_literal_token_kept fuel [c0] self) as Ht.
  rewrite Hlit in Ht. unfold lift in Ht. by destruct (int (c0 :: cs)).
Qed.

(** X25. Identifier characters, fewer than 512, followed by another character
    [d]: [scan_identifier] returns them, puts [d] back, and leaves the
    current token as it was. *)
Theorem scan_identifier_returns (fuel : nat) (self : Scanner)
    (c0 : char) (cs : str) (d : char) (rest : str) :
  (List.length cs < fuel)%nat →
  put_back_buffer self = [] →
  file self = cs ++ d :: rest →
  forallb is_identifier_char (c0 :: cs) = true →
  (List.length (c0 :: cs) < 512)%nat →
  is_identifier_char d = false →
  ∃ self',
    scan_identifier fuel [c0] self = Returns (c0 :: cs) self' ∧
    put_back_buffer self' = [d] ∧ file self' = rest ∧
    current_token self' = current_token self.
Proof.
  intros Hfuel Hb Hf Hident Hn Hd.
  simpl in Hident. apply andb_true_iff in Hident as [Hi0 Hcs].
  simpl in Hn.
  destruct (scan_identifier_stops fuel self c0 cs d rest)
    as (s' & Hid & Hb' & Hf'); try done.
  { unfold len. lia. }
  exists s'. split; [done|]. split; [done|]. split; [done|].
  pose proof (scan_identifier_token_kept fuel [c0] self) as Ht.
  by rewrite Hid in Ht.
Qed.

End ScannerLiterals.

(** ** Further runs in the concrete setting *)

Module MoreRuns.
Import Sample.

Lemma skip_whitespace_witness :
  let nl := String "010" EmptyString in
  let self := opened (" " ++ nl ++ " " ++ nl ++ "x y") in
  ∃ self',
    @skip pystr catalog 4 self = Returns (of_string "x") self' ∧
    put_back_buffer self' = [] ∧
    file self' = of_string " y" ∧
    line_number self' = 3.
Proof.
  intros nl self.
  destruct (@skip_whitespace pystr catalog 4 self
              (of_string (" " ++ nl ++ " " ++ nl)) (of_string "x y"))
    as (s & Hs & Hb & Hf & Hl).
  - vm_compute. lia.
  - reflexivity.
  - reflexivity.
  - reflexivity.
  - intros c rest' [= <- _]. reflexivity.
  - exists s. split; [exact Hs|]. split; [exact Hb|]. split; [exact Hf|].
    rewrite Hl. reflexivity.
Defined.

Lemma put_back_twice_witness :
  let self := opened "z" in
  (put_back (of_string "a");; put_back (of_string "b");; next_character)
    self = Returns (of_string "b") self.
Proof.
  intros self.
  exact (@put_back_twice catalog self (of_string "a") (of_string "b")
           eq_refl eq_refl).
Defined.

Lemma scan_end_of_file_witness :
  ∃ self',
    @scan pystr catalog 3 (opened "   ") =
      Returns (@mkToken catalog K_EOF 0) self' ∧
    current_token self' = Some (@mkToken catalog K_EOF 0) ∧
    put_back_buffer self' = [] ∧ file self' = [].
Proof.
  apply (@scan_end_of_file pystr catalog 3 (opened "   ") (of_string "   "));
    [vm_compute; lia|reflexivity|reflexivity|reflexivity].
Defined.

Lemma scan_single_character_witness :
  ∃ self',
    @scan pystr catalog 2 (opened "  ;1") =
      Returns (@mkToken catalog K_SEMICOLON 0) self' ∧
    current_token self' = Some (@mkToken catalog K_SEMICOLON 0) ∧
    put_back_buffer self' = [] ∧ file self' = of_string "1" ∧
    line_number self' = 1.
Proof.
  destruct (@scan_single_character pystr catalog 2 (opened "  ;1")
              (of_string "  ") 59%N (of_string "1"))
    as (s & Hs & Ht & Hb & Hf & Hl);
    [vm_compute; lia|reflexivity|reflexivity|reflexivity|reflexivity
    |discriminate|].
  exists s. split; [exact Hs|]. split; [exact Ht|]. split; [exact Hb|].
  split; [exact Hf|]. rewrite Hl. reflexivity.
Defined.

Lemma scan_integer_literal_token_witness :
  ∃ self',
    @scan pystr catalog 4 (opened " 123;") =
      Returns (@mkToken catalog K_INTEGER_LITERAL 123) self' ∧
    current_token self' = Some (@mkToken catalog K_INTEGER_LITERAL 123) ∧
    put_back_buffer self' = of_string ";" ∧ file self' = [].
Proof.
  apply (@scan_integer_literal_token pystr catalog 4 (opened " 123;")
           (of_string " ") 49%N (of_string "23") 59%N []);
    [vm_compute; lia|vm_compute; lia|reflexivity|reflexivity|reflexivity
    |reflexivity|reflexivity|reflexivity|reflexivity].
Defined.

Lemma scan_keyword_witness :
  (∃ self',
     put_back_buffer self' = of_string " " ∧ file self' = of_string "1;" ∧
     @scan pystr catalog 8 (opened "print 1;") =
       Returns (@mkToken catalog K_PRINT 0) self' ∧
     current_token self' = Some (@mkToken catalog K_PRINT 0)) ∧
  (∃ self',
     put_back_buffer self' = of_string " " ∧ file self' = of_string "1;" ∧
     @scan pystr catalog 8 (opened "prune 1;") =
       Raises (EccoSyntaxError_identifier (of_string "prune")) self').
Proof.
  split.
  - apply (@scan_keyword pystr catalog 8 (opened "print 1;")
             [] 112%N (of_string "rint") 32%N (of_string "1;"));
      try reflexivity; try (vm_compute; lia).
  - apply (@scan_keyword pystr catalog 8 (opened "prune 1;")
             [] 112%N (of_string "rune") 32%N (of_string "1;"));
      try reflexivity; try (vm_compute; lia).
Defined.

Lemma scan_unrecognized_character_witness :
  ∃ self',
    @scan pystr catalog 1 (opened " #") =
      Raises (EccoSyntaxError_token (of_string "#")) self' ∧
    put_back_buffer self' = [] ∧ file self' = [].
Proof.
  apply (@scan_unrecognized_character pystr catalog 1 (opened " #")
           (of_string " ") 35%N []);
    try reflexivity; try (vm_compute; lia).
Defined.

Lemma scan_terminates_witness :
  (pending (opened "print 12;") < 11)%nat ∧
  @scan pystr catalog 11 (opened "print 12;") ≠ OutOfFuel.
Proof.
  assert (pending (opened "print 12;") < 11)%nat as Hp by (vm_compute; lia).
  split; [exact Hp|].
  exact (@scan_terminates pystr catalog 11 (opened "print 12;") Hp).
Defined.

Lemma scan_identifier_terminates_witness :
  @scan_identifier pystr catalog 512 (of_string "a")
    (opened_on (replicate 600 97%N)) ≠ OutOfFuel.
Proof.
  apply (@scan_identifier_terminates pystr catalog 512). lia.
Defined.

Lemma scan_integer_literal_returns_witness :
  ∃ self',
    @scan_integer_literal pystr catalog 3 (of_string "1") (opened "23abc") =
      Returns 123 self' ∧
    put_back_buffer self' = of_string "a" ∧ file self' = of_string "bc" ∧
    current_token self' = None.
Proof.
  apply (@scan_integer_literal_returns pystr catalog 3 (opened "23abc")
           49%N (of_string "23") 97%N (of_string "bc"));
    try reflexivity; try (vm_compute; lia).
Defined.

Lemma scan_identifier_returns_witness :
  ∃ self',
    @scan_identifier pystr catalog 5 (of_string "p") (opened "rint 1") =
      Returns (of_string "print") self' ∧
    put_back_buffer self' = of_string " " ∧ file self' = of_string "1" ∧
    current_token self' = None.
Proof.
  apply (@scan_identifier_returns pystr catalog 5 (opened "rint 1")
           112%N (of_string "rint") 32%N (of_string "1"));
    try reflexivity; try (vm_compute; lia).
Defined.

End MoreRuns.
